(** * CRSF frame decoder of [crsf_receiver.py]: shallow embedding

    The Python class [CRSFReceiver] is embedded as a record together with
    functions from receiver to receiver.  Python integers are [Z], the
    elements of [bytes]/[bytearray] objects are [Byte.byte], and the one
    statement of the decoder that can raise ([self.channels[i] = ...], an
    [IndexError] when the list is too short) makes the parsing functions
    return an [option].  Python floats, which only the query functions
    use, are the primitive IEEE 754 binary64 floats. *)

From Stdlib Require Import ZArith List Bool Lia.
From Stdlib Require Import Init.Byte Strings.Byte.
From Stdlib Require Import Floats.PrimFloat.
From Stdlib Require Floats.SpecFloat Floats.FloatOps.
From Stdlib Require Numbers.Cyclic.Int63.Uint63.
Import ListNotations.

Local Open Scope Z_scope.

(** ** Bytes and Python-style helpers *)

(** The integer a Python program sees when it indexes a [bytes] object. *)
Definition b2z (b : byte) : Z := Z.of_N (Byte.to_N b).

(** [bytes([z])[0]] for [z] in the byte range. *)
Definition z2b (z : Z) : byte :=
  match Byte.of_N (Z.to_N z) with
  | Some b => b
  | None => x00
  end.

(** [len(x)] as a Python integer. *)
Definition len {A : Type} (l : list A) : Z := Z.of_nat (length l).

(** [x[i]] for an index the caller has checked to be in range. *)
Definition getitem (l : list byte) (i : nat) : Z := b2z (nth i l x00).

(** [x[:n]] and [x[n:]] for a non-negative [n]. *)
Definition slice_to {A : Type} (n : Z) (l : list A) : list A :=
  firstn (Z.to_nat n) l.

Definition slice_from {A : Type} (n : Z) (l : list A) : list A :=
  skipn (Z.to_nat n) l.

(** [x[a:-1]]: from index [a] up to, and without, the last element. *)
Definition slice_mid {A : Type} (a : nat) (l : list A) : list A :=
  skipn a (removelast l).

(** [x[-1]] on a non-empty sequence. *)
Definition last_byte (l : list byte) : Z := b2z (last l x00).

(** [l[i] = v] on a Python list; [None] stands for the [IndexError] raised
    when [i] is not an index of [l]. *)
Fixpoint setitem (l : list Z) (i : nat) (v : Z) : option (list Z) :=
  match l, i with
  | [], _ => None
  | _ :: t, O => Some (v :: t)
  | x :: t, S j =>
      match setitem t j v with
      | Some t' => Some (x :: t')
      | None => None
      end
  end.

(** [int.from_bytes(x, byteorder='little')]. *)
Fixpoint from_bytes_le (l : list byte) : Z :=
  match l with
  | [] => 0
  | b :: t => b2z b + 256 * from_bytes_le t
  end.

(** [struct.unpack('b', bytes([z]))[0]]: the byte read as a signed char. *)
Definition unpack_b (z : Z) : Z := if z <? 128 then z else z - 256.

Definition bind {A B : Type} (m : option A) (f : A -> option B) : option B :=
  match m with
  | Some a => f a
  | None => None
  end.

Notation "x <- m ;; k" := (bind m (fun x => k))
  (at level 61, m at next level, right associativity).

(** ** Enumerations *)

Inductive CRSFFrameType : Set :=
| FT_GPS | VARIO | BATTERY_SENSOR | BARO_ALTITUDE | LINK_STATISTICS
| RC_CHANNELS_PACKED | ATTITUDE | FLIGHT_MODE | DEVICE_PING | DEVICE_INFO
| PARAMETER_SETTINGS_ENTRY | PARAMETER_READ | PARAMETER_WRITE | COMMAND.

Definition frame_type_value (t : CRSFFrameType) : Z :=
  match t with
  | FT_GPS => 0x02 | VARIO => 0x07 | BATTERY_SENSOR => 0x08
  | BARO_ALTITUDE => 0x09 | LINK_STATISTICS => 0x14
  | RC_CHANNELS_PACKED => 0x16 | ATTITUDE => 0x1E | FLIGHT_MODE => 0x21
  | DEVICE_PING => 0x28 | DEVICE_INFO => 0x29
  | PARAMETER_SETTINGS_ENTRY => 0x2B | PARAMETER_READ => 0x2C
  | PARAMETER_WRITE => 0x2D | COMMAND => 0x32
  end.

(** [CRSFAddress] declares thirteen names; [FLIGHT_CONTROLLER] repeats the
    value of [USB], so Python makes it an alias of [USB] and iterating the
    enumeration yields twelve members. *)
Inductive CRSFAddress : Set :=
| BROADCAST | USB | TBS_CORE_PNP_PRO | RESERVED1 | CURRENT_SENSOR | GPS
| TBS_BLACKBOX | RESERVED2 | RACE_TAG | RADIO_TRANSMITTER | CRSF_RECEIVER
| CRSF_TRANSMITTER.

Definition FLIGHT_CONTROLLER : CRSFAddress := USB.

Definition address_value (a : CRSFAddress) : Z :=
  match a with
  | BROADCAST => 0x00 | USB => 0xC8 | TBS_CORE_PNP_PRO => 0x80
  | RESERVED1 => 0x8A | CURRENT_SENSOR => 0xC0 | GPS => 0xC2
  | TBS_BLACKBOX => 0xC4 | RESERVED2 => 0xCA | RACE_TAG => 0xCC
  | RADIO_TRANSMITTER => 0xEA | CRSF_RECEIVER => 0xEC
  | CRSF_TRANSMITTER => 0xEE
  end.

(** The members in definition order, as [for addr in CRSFAddress] visits
    them. *)
Definition CRSFAddress_members : list CRSFAddress :=
  [BROADCAST; USB; TBS_CORE_PNP_PRO; RESERVED1; CURRENT_SENSOR; GPS;
   TBS_BLACKBOX; RESERVED2; RACE_TAG; RADIO_TRANSMITTER; CRSF_RECEIVER;
   CRSF_TRANSMITTER].

(** [x in [addr.value for addr in CRSFAddress]]. *)
Definition is_address (x : Z) : bool :=
  existsb (Z.eqb x) (map address_value CRSFAddress_members).

(** ** The receiver object *)

Definition CRSF_MAX_PACKET_SIZE : Z := 64.

(** The part of a [serial.Serial] object the decoder looks at: whether the
    port is open and the bytes that wait in its input queue. *)
Record Serial : Type := mkSerial {
  is_open : bool;
  in_waiting : list byte
}.

Record CRSFReceiver : Type := mkReceiver {
  serial : option Serial;
  buffer : list byte;
  channels : list Z;
  rssi_1 : Z;
  rssi_2 : Z;
  link_quality : Z;
  snr : Z;
  active_antenna : Z;
  rf_mode : Z;
  tx_power : Z;
  frame_count : Z;
  error_count : Z
}.

(** [CRSFReceiver.__init__]. *)
Definition init : CRSFReceiver :=
  {| serial := None; buffer := [];
     channels := repeat 0 16;
     rssi_1 := 0; rssi_2 := 0; link_quality := 0; snr := 0;
     active_antenna := 0; rf_mode := 0; tx_power := 0;
     frame_count := 0; error_count := 0 |}.

Definition set_serial (s : option Serial) (self : CRSFReceiver) :=
  mkReceiver s (buffer self) (channels self) (rssi_1 self) (rssi_2 self)
    (link_quality self) (snr self) (active_antenna self) (rf_mode self)
    (tx_power self) (frame_count self) (error_count self).

Definition set_buffer (b : list byte) (self : CRSFReceiver) :=
  mkReceiver (serial self) b (channels self) (rssi_1 self) (rssi_2 self)
    (link_quality self) (snr self) (active_antenna self) (rf_mode self)
    (tx_power self) (frame_count self) (error_count self).

Definition set_channels (c : list Z) (self : CRSFReceiver) :=
  mkReceiver (serial self) (buffer self) c (rssi_1 self) (rssi_2 self)
    (link_quality self) (snr self) (active_antenna self) (rf_mode self)
    (tx_power self) (frame_count self) (error_count self).

Definition set_link (r1 r2 lq sn ant rf tx : Z) (self : CRSFReceiver) :=
  mkReceiver (serial self) (buffer self) (channels self) r1 r2 lq sn ant rf
    tx (frame_count self) (error_count self).

Definition set_frame_count (n : Z) (self : CRSFReceiver) :=
  mkReceiver (serial self) (buffer self) (channels self) (rssi_1 self)
    (rssi_2 self) (link_quality self) (snr self) (active_antenna self)
    (rf_mode self) (tx_power self) n (error_count self).

Definition set_error_count (n : Z) (self : CRSFReceiver) :=
  mkReceiver (serial self) (buffer self) (channels self) (rssi_1 self)
    (rssi_2 self) (link_quality self) (snr self) (active_antenna self)
    (rf_mode self) (tx_power self) (frame_count self) n.

(** ** [_calculate_crc] *)

(** One round of the inner loop: the accumulator is not masked here, only
    after the eight rounds. *)
Definition crc_round (crc : Z) : Z :=
  if Z.land crc 0x80 =? 0
  then Z.shiftl crc 1
  else Z.lxor (Z.shiftl crc 1) 0xD5.

Definition crc_update (crc : Z) (b : byte) : Z :=
  Z.land (Nat.iter 8 crc_round (Z.lxor crc (b2z b))) 0xFF.

Definition _calculate_crc (data : list byte) : Z :=
  fold_left crc_update data 0.

(** ** Payload decoders *)

(** [(bits >> (i * 11)) & 0x7FF]. *)
Definition channel_of_bits (bits : Z) (i : nat) : Z :=
  Z.land (Z.shiftr bits (Z.of_nat i * 11)) 0x7FF.

(** The loop [for i in range(16): self.channels[i] = ...] started at index
    [i] with [n] rounds to go. *)
Fixpoint store_channels (bits : Z) (i n : nat) (chs : list Z)
  : option (list Z) :=
  match n with
  | O => Some chs
  | S n' =>
      chs' <- setitem chs i (channel_of_bits bits i) ;;
      store_channels bits (S i) n' chs'
  end.

Definition _parse_rc_channels (payload : list byte) (self : CRSFReceiver)
  : option CRSFReceiver :=
  if len payload <? 22 then Some self
  else
    let bits := from_bytes_le (slice_to 22 payload) in
    chs <- store_channels bits 0 16 (channels self) ;;
    Some (set_channels chs self).

Definition _parse_link_statistics (payload : list byte)
  (self : CRSFReceiver) : CRSFReceiver :=
  if len payload <? 10 then self
  else
    set_link (getitem payload 0) (getitem payload 1) (getitem payload 2)
      (unpack_b (getitem payload 3)) (getitem payload 4)
      (getitem payload 5) (getitem payload 6) self.

(** ** [_parse_frame] *)

Definition _parse_frame (frame : list byte) (self : CRSFReceiver)
  : option CRSFReceiver :=
  if len frame <? 4 then Some self
  else
    let frame_type := getitem frame 2 in
    let payload := slice_mid 3 frame in
    let crc := last_byte frame in
    let calculated_crc := _calculate_crc (slice_mid 2 frame) in
    if negb (crc =? calculated_crc)
    then Some (set_error_count (error_count self + 1) self)
    else
      let self := set_frame_count (frame_count self + 1) self in
      if frame_type =? frame_type_value RC_CHANNELS_PACKED
      then _parse_rc_channels payload self
      else if frame_type =? frame_type_value LINK_STATISTICS
      then Some (_parse_link_statistics payload self)
      else Some self.

(** ** [read_frame] *)

(** How the [while len(self.buffer) >= 4] loop is left: by its condition
    or its [break], with the buffer as it then is, or through the frame
    extraction, with the frame and the rest of the buffer. *)
Inductive sync : Type :=
| NeedMore (buf : list byte)
| Extracted (frame rest : list byte).

(** The loop on the buffer; [self.buffer.pop(0)] followed by [continue]
    is the recursive call on the tail. *)
Fixpoint sync_loop (buf : list byte) : sync :=
  match buf with
  | [] => NeedMore buf
  | _ :: tl =>
      if len buf <? 4 then NeedMore buf
      else if negb (is_address (getitem buf 0)) then sync_loop tl
      else
        let frame_length := getitem buf 1 in
        if frame_length >? CRSF_MAX_PACKET_SIZE then sync_loop tl
        else
          let total_length := frame_length + 2 in
          if len buf <? total_length then NeedMore buf
          else Extracted (slice_to total_length buf)
                         (slice_from total_length buf)
  end.

(** [self.serial.read(self.serial.in_waiting)] and [self.buffer.extend]:
    the waiting bytes move from the port to the end of the buffer. *)
Definition receive (s : Serial) (self : CRSFReceiver) : CRSFReceiver :=
  if len (in_waiting s) >? 0
  then set_buffer (buffer self ++ in_waiting s)
         (set_serial (Some (mkSerial (is_open s) [])) self)
  else self.

Definition read_frame (self : CRSFReceiver) : option (bool * CRSFReceiver) :=
  match serial self with
  | None => Some (false, self)
  | Some s =>
      if negb (is_open s) then Some (false, self)
      else
        let self := receive s self in
        match sync_loop (buffer self) with
        | NeedMore buf => Some (false, set_buffer buf self)
        | Extracted frame rest =>
            self' <- _parse_frame frame (set_buffer rest self) ;;
            Some (true, self')
        end
  end.

(** ** The port and the polling loop around [read_frame] *)

(** [open] when [serial.Serial(...)] succeeds: a fresh open port with an
    empty input queue.  When it raises, [self.serial] keeps its value. *)
Definition open (self : CRSFReceiver) : CRSFReceiver :=
  set_serial (Some (mkSerial true [])) self.

(** [close]: an open port is closed and its input queue is lost. *)
Definition close (self : CRSFReceiver) : CRSFReceiver :=
  match serial self with
  | Some s =>
      if is_open s then set_serial (Some (mkSerial false [])) self else self
  | None => self
  end.

(** Bytes coming in from the wire join the input queue of an open port. *)
Definition arrive (data : list byte) (self : CRSFReceiver) : CRSFReceiver :=
  match serial self with
  | Some s =>
      if is_open s
      then set_serial (Some (mkSerial true (in_waiting s ++ data))) self
      else self
  | None => self
  end.

(** What can happen to a receiver between its construction and now. *)
Inductive event : Type :=
| Open
| Close
| Arrive (data : list byte)
| ReadFrame.

Definition step (e : event) (self : CRSFReceiver) : option CRSFReceiver :=
  match e with
  | Open => Some (open self)
  | Close => Some (close self)
  | Arrive data => Some (arrive data self)
  | ReadFrame => r <- read_frame self ;; Some (snd r)
  end.

Fixpoint run (es : list event) (self : CRSFReceiver)
  : option CRSFReceiver :=
  match es with
  | [] => Some self
  | e :: es' => self' <- step e self ;; run es' self'
  end.

(** The number of bytes [read_frame] can still look at. *)
Definition backlog (self : CRSFReceiver) : nat :=
  match serial self with
  | Some s => length (buffer self) + length (in_waiting s)
  | None => length (buffer self)
  end.

(** [while crsf.read_frame(): pass] with a bound on the number of calls. *)
Fixpoint drain_fuel (fuel : nat) (self : CRSFReceiver)
  : option CRSFReceiver :=
  match fuel with
  | O => Some self
  | S fuel' =>
      r <- read_frame self ;;
      if fst r then drain_fuel fuel' (snd r) else Some (snd r)
  end.

(** Every call that returns [True] takes at least two bytes out of the
    backlog, so one call more than the backlog has bytes is enough (see
    [drain_quiescent] and [drain_fuel_enough]). *)
Definition drain (self : CRSFReceiver) : option CRSFReceiver :=
  drain_fuel (S (backlog self)) self.

(** One chunk arrives and is decoded as far as it goes. *)
Definition feed (chunk : list byte) (self : CRSFReceiver)
  : option CRSFReceiver :=
  drain (arrive chunk self).

Fixpoint feed_chunks (chunks : list (list byte)) (self : CRSFReceiver)
  : option CRSFReceiver :=
  match chunks with
  | [] => Some self
  | c :: cs => self' <- feed c self ;; feed_chunks cs self'
  end.

(** ** The sender's side of the channel layout *)

(** Value [i] of the list is placed at bit offset [i * 11], counting from
    index [i]. *)
Fixpoint pack_from (i : nat) (vs : list Z) : Z :=
  match vs with
  | [] => 0
  | v :: r => Z.shiftl v (Z.of_nat i * 11) + pack_from (S i) r
  end.

(** [x.to_bytes(n, byteorder='little')]. *)
Definition to_bytes_le (n : nat) (x : Z) : list byte :=
  map (fun k => z2b (Z.land (Z.shiftr x (8 * Z.of_nat k)) 0xFF)) (seq 0 n).

Definition pack_channels (vs : list Z) : list byte :=
  to_bytes_le 22 (pack_from 0 vs).

(** A frame around a type byte and a payload:
    [address][length][type][payload...][crc]. *)
Definition make_frame (addr : CRSFAddress) (ty : CRSFFrameType)
  (payload : list byte) : list byte :=
  let body := z2b (frame_type_value ty) :: payload in
  z2b (address_value addr) :: z2b (len body + 1) :: body
    ++ [z2b (_calculate_crc body)].

(** ** The query functions *)

(** Python floats are IEEE 754 binary64 numbers, as the primitive floats
    are.  [float_of_int z] is [float(z)] for an integer of at most 53
    bits, which the conversion keeps exactly; beyond that Python rounds
    or raises [OverflowError], and the model answers [None]. *)
Definition float_of_int (z : Z) : option float :=
  if Z.abs z <=? 2 ^ 53
  then Some (if z <? 0
             then PrimFloat.opp (PrimFloat.of_uint63 (Uint63.of_Z (- z)))
             else PrimFloat.of_uint63 (Uint63.of_Z z))
  else None.

(** [a / b] on two integers is the correctly rounded quotient; for
    integers of at most 53 bits this is the division of their floats.
    [None] also stands for the [ZeroDivisionError]. *)
Definition true_div (a b : Z) : option float :=
  if b =? 0 then None
  else x <- float_of_int a ;; y <- float_of_int b ;;
       Some (PrimFloat.div x y).

(** [int(x)] cuts the fraction off, toward zero; on an infinity or a NaN
    it raises, which is [None]. *)
Definition int_of_float (x : float) : option Z :=
  match FloatOps.Prim2SF x with
  | SpecFloat.S754_zero _ => Some 0
  | SpecFloat.S754_finite s m e =>
      let v := if 0 <=? e then Z.pos m * 2 ^ e else Z.pos m / 2 ^ (- e) in
      Some (if s then - v else v)
  | _ => None
  end.

(** A list comprehension whose element expression can fail. *)
Fixpoint map_opt {A B : Type} (f : A -> option B) (l : list A)
  : option (list B) :=
  match l with
  | [] => Some []
  | a :: t => b <- f a ;; r <- map_opt f t ;; Some (b :: r)
  end.

(** [get_channels]: a copy of the list. *)
Definition get_channels (self : CRSFReceiver) : list Z := channels self.

(** [(ch - 992) / 819.0]. *)
Definition channel_normalized (ch : Z) : option float :=
  x <- float_of_int (ch - 992) ;; Some (PrimFloat.div x 819.0%float).

Definition get_channels_normalized (self : CRSFReceiver)
  : option (list float) :=
  map_opt channel_normalized (channels self).

(** [int(1000 + (ch - 172) * 1000 / 1639)]. *)
Definition channel_microseconds (ch : Z) : option Z :=
  q <- true_div ((ch - 172) * 1000) 1639 ;;
  k <- float_of_int 1000 ;;
  int_of_float (PrimFloat.add k q).

Definition get_channels_microseconds (self : CRSFReceiver)
  : option (list Z) :=
  map_opt channel_microseconds (channels self).

(** ** The checks of [test_crsf.py] *)

(** [all(0 <= ch <= 2047 for ch in channels_raw)]. *)
Definition valid_raw (channels_raw : list Z) : bool :=
  forallb (fun ch => (0 <=? ch) && (ch <=? 2047)) channels_raw.

(** [-1.5 <= ch <= 1.5] on a float. *)
Definition in_norm_range (ch : float) : bool :=
  PrimFloat.leb (-1.5)%float ch && PrimFloat.leb ch 1.5%float.

(** [all(-1.5 <= ch <= 1.5 for ch in channels_norm)]. *)
Definition valid_norm (channels_norm : list float) : bool :=
  forallb in_norm_range channels_norm.

(** [all(800 <= ch <= 2200 for ch in channels_us)]. *)
Definition valid_us (channels_us : list Z) : bool :=
  forallb (fun ch => (800 <=? ch) && (ch <=? 2200)) channels_us.

(** [valid_raw and valid_norm and valid_us] of [test_channel_values], on
    the three lists the test reads from the receiver. *)
Definition channel_values_valid (self : CRSFReceiver) : option bool :=
  channels_norm <- get_channels_normalized self ;;
  channels_us <- get_channels_microseconds self ;;
  Some (valid_raw (get_channels self) && valid_norm channels_norm
        && valid_us channels_us).

(** [valid_rssi and valid_lq] of [test_link_statistics]. *)
Definition link_statistics_valid (self : CRSFReceiver) : bool :=
  let valid_rssi := (-120 <=? rssi_1 self) && (rssi_1 self <=? 0) in
  let valid_lq := (0 <=? link_quality self) && (link_quality self <=? 100) in
  valid_rssi && valid_lq.

(** ** Notions the further properties are stated with *)

(** [crc_update] on the accumulator after its XOR with the data byte: the
    eight rounds followed by the mask. *)
Definition crc_table (x : Z) : Z := Z.land (Nat.iter 8 crc_round x) 0xFF.

(** The link statistics as bytes: six unsigned ones and the signed
    [snr]. *)
Definition link_bytes (self : CRSFReceiver) : Prop :=
  0 <= rssi_1 self <= 255 /\ 0 <= rssi_2 self <= 255 /\
  0 <= link_quality self <= 255 /\ -128 <= snr self <= 127 /\
  0 <= active_antenna self <= 255 /\ 0 <= rf_mode self <= 255 /\
  0 <= tx_power self <= 255.

(** The number of [read_frame] calls in a history. *)
Fixpoint count_reads (es : list event) : Z :=
  match es with
  | [] => 0
  | ReadFrame :: es' => 1 + count_reads es'
  | _ :: es' => count_reads es'
  end.

(** ** Notions the properties are stated with *)

(** No byte of the stream is a device address. *)
Definition noise (data : list byte) : Prop :=
  Forall (fun b => is_address (b2z b) = false) data.

(** A port that is open and whose input queue is empty. *)
Definition idle : option Serial := Some (mkSerial true []).

(** The polling loop on a receiver with an idle port, told as a
    derivation: [drains buf self r] says that the loop, started with
    [buf] as the buffer of [self], ends in [r], where [None] is an
    [IndexError] that came out of [_parse_frame]. *)
Inductive drains : list byte -> CRSFReceiver -> option CRSFReceiver -> Prop :=
| drains_stop buf b self :
    sync_loop buf = NeedMore b ->
    drains buf self (Some (set_buffer b self))
| drains_raise buf frame rest self :
    sync_loop buf = Extracted frame rest ->
    _parse_frame frame (set_buffer rest self) = None ->
    drains buf self None
| drains_frame buf frame rest self self' r :
    sync_loop buf = Extracted frame rest ->
    _parse_frame frame (set_buffer rest self) = Some self' ->
    drains rest self' r ->
    drains buf self r.

(** A channel value of eleven bits. *)
Definition channel_range (c : Z) : Prop := 0 <= c <= 2047.

(** Sixteen channel values of eleven bits, and a link quality that is a
    byte. *)
Definition well_formed (self : CRSFReceiver) : Prop :=
  length (channels self) = 16%nat /\
  Forall channel_range (channels self) /\
  0 <= link_quality self <= 255.

(** The seven payload bytes of the scenario. *)
Definition scenario_payload : list byte :=
  [x32; x30; x4b; xf6; x01; x02; x14].

(** Settles [b = (x <? y)] and [b = (x >? y)] for a boolean constant [b]
    from the arithmetic in the context. *)
Ltac cmp_by_lia :=
  symmetry;
  first [ apply Z.ltb_lt | apply Z.ltb_ge | apply Z.gtb_lt
        | rewrite Z.gtb_ltb; apply Z.ltb_ge ];
  lia.

(** * Properties *)

(** ** Bytes *)

Lemma b2z_range (b : byte) : 0 <= b2z b <= 255.
Proof.
  unfold b2z. pose proof (Byte.to_N_bounded b). lia.
Qed.

Lemma b2z_z2b (z : Z) : 0 <= z <= 255 -> b2z (z2b z) = z.
Proof.
  intros Hz. unfold b2z, z2b.
  destruct (Byte.of_N (Z.to_N z)) as [b|] eqn:E.
  - apply Byte.to_of_N in E. rewrite E. lia.
  - apply Byte.of_N_None_iff in E. lia.
Qed.

Lemma len_nonneg {A : Type} (l : list A) : 0 <= len l.
Proof. unfold len. lia. Qed.

Lemma len_app {A : Type} (l1 l2 : list A) : len (l1 ++ l2) = len l1 + len l2.
Proof. unfold len. rewrite length_app. lia. Qed.

(** ** Setters and projections *)

Lemma set_buffer_same (self : CRSFReceiver) :
  set_buffer (buffer self) self = self.
Proof. destruct self; reflexivity. Qed.

(** The decoders neither look at the buffer and the port nor touch them. *)
Lemma _parse_rc_channels_frame_rule payload b s self :
  _parse_rc_channels payload (set_buffer b (set_serial s self)) =
  option_map (fun r => set_buffer b (set_serial s r))
    (_parse_rc_channels payload self).
Proof.
  unfold _parse_rc_channels.
  destruct (len payload <? 22); [reflexivity|].
  cbn [channels set_buffer set_serial].
  destruct (store_channels _ 0 16 (channels self)); reflexivity.
Qed.

Lemma _parse_frame_frame_rule frame b s self :
  _parse_frame frame (set_buffer b (set_serial s self)) =
  option_map (fun r => set_buffer b (set_serial s r))
    (_parse_frame frame self).
Proof.
  unfold _parse_frame.
  destruct (len frame <? 4); [reflexivity|].
  destruct (negb _); [reflexivity|].
  destruct (getitem frame 2 =? frame_type_value RC_CHANNELS_PACKED).
  - apply (_parse_rc_channels_frame_rule _ b s
             (set_frame_count (frame_count self + 1) self)).
  - destruct (_ =? _); [|reflexivity].
    unfold _parse_link_statistics. destruct (_ <? _); reflexivity.
Qed.

Lemma _parse_rc_channels_keeps payload self self' :
  _parse_rc_channels payload self = Some self' ->
  serial self' = serial self /\ buffer self' = buffer self /\
  frame_count self' = frame_count self /\
  error_count self' = error_count self /\
  link_quality self' = link_quality self.
Proof.
  unfold _parse_rc_channels.
  destruct (len payload <? 22).
  - intros [= <-]. repeat split.
  - destruct (store_channels _ 0 16 (channels self)); cbn [bind];
      [intros [= <-]; repeat split | discriminate].
Qed.

Lemma _parse_frame_keeps frame self self' :
  _parse_frame frame self = Some self' ->
  serial self' = serial self /\ buffer self' = buffer self.
Proof.
  unfold _parse_frame.
  destruct (len frame <? 4); [intros [= <-]; split; reflexivity|].
  destruct (negb _); [intros [= <-]; split; reflexivity|].
  destruct (getitem frame 2 =? frame_type_value RC_CHANNELS_PACKED).
  - intros H. apply _parse_rc_channels_keeps in H.
    destruct H as (H1 & H2 & _). split; assumption.
  - destruct (_ =? _); [|intros [= <-]; split; reflexivity].
    unfold _parse_link_statistics.
    destruct (_ <? _); intros [= <-]; split; reflexivity.
Qed.

(** A frame is counted at most once, as good or as bad. *)
Lemma _parse_frame_counts frame self self' :
  _parse_frame frame self = Some self' ->
  frame_count self <= frame_count self' /\
  error_count self <= error_count self' /\
  frame_count self' + error_count self' <=
    frame_count self + error_count self + 1.
Proof.
  unfold _parse_frame.
  destruct (len frame <? 4); [intros [= <-]; lia|].
  destruct (negb _); [intros [= <-]; cbn; lia|].
  destruct (getitem frame 2 =? frame_type_value RC_CHANNELS_PACKED).
  - intros H. apply _parse_rc_channels_keeps in H.
    destruct H as (_ & _ & H1 & H2 & _). rewrite H1, H2. cbn. lia.
  - destruct (_ =? _); [|intros [= <-]; cbn; lia].
    unfold _parse_link_statistics.
    destruct (_ <? _); intros [= <-]; cbn; lia.
Qed.

(** ** The synchronisation loop *)

(** One turn of the loop, for any buffer. *)
Lemma sync_loop_eq (buf : list byte) :
  sync_loop buf =
  if len buf <? 4 then NeedMore buf
  else if negb (is_address (getitem buf 0)) then sync_loop (tl buf)
  else if getitem buf 1 >? CRSF_MAX_PACKET_SIZE then sync_loop (tl buf)
  else if len buf <? getitem buf 1 + 2 then NeedMore buf
  else Extracted (slice_to (getitem buf 1 + 2) buf)
                 (slice_from (getitem buf 1 + 2) buf).
Proof. destruct buf; reflexivity. Qed.

Lemma getitem_app (l c : list byte) (i : nat) :
  (i < length l)%nat -> getitem (l ++ c) i = getitem l i.
Proof. intros H. unfold getitem. now rewrite app_nth1. Qed.

Lemma slice_to_app {A : Type} (n : Z) (l c : list A) :
  n <= len l -> slice_to n (l ++ c) = slice_to n l.
Proof.
  unfold slice_to, len. intros H. rewrite firstn_app.
  replace (Z.to_nat n - length l)%nat with O by lia.
  cbn. apply app_nil_r.
Qed.

Lemma slice_from_app {A : Type} (n : Z) (l c : list A) :
  n <= len l -> slice_from n (l ++ c) = slice_from n l ++ c.
Proof.
  unfold slice_from, len. intros H. rewrite skipn_app.
  replace (Z.to_nat n - length l)%nat with O by lia.
  reflexivity.
Qed.

Lemma slice_to_from {A : Type} (n : Z) (l : list A) :
  slice_to n l ++ slice_from n l = l.
Proof. apply firstn_skipn. Qed.

Lemma len_slice_to {A : Type} (n : Z) (l : list A) :
  0 <= n <= len l -> len (slice_to n l) = n.
Proof.
  unfold slice_to, len. intros H. rewrite length_firstn. lia.
Qed.

(** What an extraction says about the buffer it came from: some leading
    bytes were dropped, and the frame starts with a known address and a
    length byte that fits the frame. *)
Lemma sync_loop_extracted (buf frame rest : list byte) :
  sync_loop buf = Extracted frame rest ->
  exists dropped,
    buf = dropped ++ frame ++ rest /\
    4 <= len (frame ++ rest) /\
    is_address (getitem frame 0) = true /\
    getitem frame 1 <= CRSF_MAX_PACKET_SIZE /\
    len frame = getitem frame 1 + 2.
Proof.
  induction buf as [|b0 t IH]; [discriminate|].
  rewrite sync_loop_eq. cbn [tl].
  destruct (len (b0 :: t) <? 4) eqn:E4; [discriminate|].
  assert (Hdrop : sync_loop t = Extracted frame rest ->
    exists dropped, b0 :: t = dropped ++ frame ++ rest /\
      4 <= len (frame ++ rest) /\ is_address (getitem frame 0) = true /\
      getitem frame 1 <= CRSF_MAX_PACKET_SIZE /\
      len frame = getitem frame 1 + 2).
  { intros H. destruct (IH H) as (d & -> & Hrest).
    exists (b0 :: d). split; [reflexivity | exact Hrest]. }
  destruct (is_address (getitem (b0 :: t) 0)) eqn:Ea; cbn [negb];
    [|exact Hdrop].
  destruct (getitem (b0 :: t) 1 >? CRSF_MAX_PACKET_SIZE) eqn:El;
    [exact Hdrop|].
  destruct (len (b0 :: t) <? getitem (b0 :: t) 1 + 2) eqn:Et;
    [discriminate|].
  intros [= <- <-]. exists [].
  set (buf := b0 :: t) in *.
  assert (Hb1 : 0 <= getitem buf 1 <= 255) by apply b2z_range.
  assert (Hn : getitem buf 1 + 2 <= len buf) by lia.
  assert (Hlen : (2 <= length (slice_to (getitem buf 1 + 2) buf))%nat).
  { pose proof (len_slice_to (getitem buf 1 + 2) buf) as H.
    unfold len in H. unfold len in Hn. lia. }
  assert (Hg : forall i, (i < 2)%nat ->
            getitem (slice_to (getitem buf 1 + 2) buf) i = getitem buf i).
  { intros i Hi. rewrite <- (slice_to_from (getitem buf 1 + 2) buf) at 3.
    rewrite getitem_app; [reflexivity | lia]. }
  rewrite slice_to_from, !Hg by lia.
  cbn [app]. repeat split.
  - lia.
  - exact Ea.
  - lia.
  - apply len_slice_to. lia.
Qed.

(** When the loop stops without a frame, what it leaves is a suffix of the
    buffer on which it stops at once. *)
Lemma sync_loop_needmore (buf b : list byte) :
  sync_loop buf = NeedMore b ->
  (exists dropped, buf = dropped ++ b) /\ sync_loop b = NeedMore b.
Proof.
  induction buf as [|b0 t IH]; [intros [= <-]; split; [now exists []|reflexivity]|].
  intros H. pose proof H as H0. rewrite sync_loop_eq in H. cbn [tl] in H.
  assert (Hdrop : sync_loop t = NeedMore b ->
            (exists dropped, b0 :: t = dropped ++ b) /\
            sync_loop b = NeedMore b).
  { intros Ht. destruct (IH Ht) as ((d & ->) & Hb).
    split; [now exists (b0 :: d) | exact Hb]. }
  destruct (len (b0 :: t) <? 4);
    [injection H as <-; split; [now exists []|exact H0]|].
  destruct (negb _); [exact (Hdrop H)|].
  destruct (_ >? _); [exact (Hdrop H)|].
  destruct (_ <? _); [|discriminate].
  injection H as <-; split; [now exists []|exact H0].
Qed.

(** More bytes behind the buffer do not change what the loop does with
    the bytes it already has: an extraction stays the same extraction. *)
Lemma sync_loop_app_extracted (buf c frame rest : list byte) :
  sync_loop buf = Extracted frame rest ->
  sync_loop (buf ++ c) = Extracted frame (rest ++ c).
Proof.
  induction buf as [|b0 t IH]; [discriminate|].
  rewrite (sync_loop_eq (b0 :: t)), (sync_loop_eq ((b0 :: t) ++ c)).
  destruct (len (b0 :: t) <? 4) eqn:E4; [discriminate|].
  apply Z.ltb_ge in E4.
  assert (Hl : (4 <= length (b0 :: t))%nat) by (unfold len in E4; lia).
  rewrite len_app, !getitem_app by lia.
  pose proof (len_nonneg c) as Hc.
  replace (len (b0 :: t) + len c <? 4) with false
    by cmp_by_lia.
  cbn [tl app].
  destruct (negb _); [exact IH|].
  destruct (_ >? _); [exact IH|].
  destruct (len (b0 :: t) <? getitem (b0 :: t) 1 + 2) eqn:Et;
    [discriminate|].
  apply Z.ltb_ge in Et.
  replace (len (b0 :: t) + len c <? getitem (b0 :: t) 1 + 2) with false
    by cmp_by_lia.
  intros [= <- <-].
  change (b0 :: t ++ c) with ((b0 :: t) ++ c).
  now rewrite slice_to_app, slice_from_app by lia.
Qed.

(** The bytes dropped on the way to a stop are dropped again when more
    bytes follow. *)
Lemma sync_loop_app_needmore (buf c b : list byte) :
  sync_loop buf = NeedMore b ->
  sync_loop (buf ++ c) = sync_loop (b ++ c).
Proof.
  induction buf as [|b0 t IH]; [now intros [= <-]|].
  rewrite (sync_loop_eq (b0 :: t)).
  destruct (len (b0 :: t) <? 4) eqn:E4; [now intros [= <-]|].
  apply Z.ltb_ge in E4.
  assert (Hl : (4 <= length (b0 :: t))%nat) by (unfold len in E4; lia).
  rewrite (sync_loop_eq ((b0 :: t) ++ c)).
  rewrite len_app, !getitem_app by lia.
  pose proof (len_nonneg c) as Hc.
  replace (len (b0 :: t) + len c <? 4) with false
    by cmp_by_lia.
  cbn [tl app].
  destruct (negb _) eqn:Ea; [exact IH|].
  destruct (_ >? _) eqn:El; [exact IH|].
  destruct (len (b0 :: t) <? getitem (b0 :: t) 1 + 2) eqn:Et;
    [|discriminate].
  intros [= <-].
  rewrite (sync_loop_eq ((b0 :: t) ++ c)).
  rewrite len_app, !getitem_app by lia.
  replace (len (b0 :: t) + len c <? 4) with false
    by cmp_by_lia.
  now rewrite Ea, El.
Qed.

(** ** One call of [read_frame] *)

(** On an open port the read moves the whole input queue behind the
    buffer, whether the queue is empty or not. *)
Lemma receive_eq (self : CRSFReceiver) (s : Serial) :
  serial self = Some s -> is_open s = true ->
  receive s self =
  set_buffer (buffer self ++ in_waiting s)
    (set_serial (Some (mkSerial true [])) self).
Proof.
  intros Hs Ho. unfold receive.
  destruct s as [o q]. cbn in *. subst o.
  destruct q as [|x q]; [|reflexivity].
  cbn. destruct self; cbn in *. rewrite app_nil_r. now subst.
Qed.

Lemma read_frame_open (self : CRSFReceiver) (s : Serial) :
  serial self = Some s -> is_open s = true ->
  read_frame self =
  match sync_loop (buffer (receive s self)) with
  | NeedMore buf => Some (false, set_buffer buf (receive s self))
  | Extracted frame rest =>
      self' <- _parse_frame frame (set_buffer rest (receive s self)) ;;
      Some (true, self')
  end.
Proof. intros Hs Ho. unfold read_frame. now rewrite Hs, Ho. Qed.

(** A call on a receiver whose input queue has been read already. *)
Lemma read_frame_received (self : CRSFReceiver) (s : Serial)
  (b : list byte) :
  serial self = Some s -> is_open s = true ->
  read_frame (set_buffer b (receive s self)) =
  match sync_loop b with
  | NeedMore buf => Some (false, set_buffer buf (receive s self))
  | Extracted frame rest =>
      self' <- _parse_frame frame (set_buffer rest (receive s self)) ;;
      Some (true, self')
  end.
Proof.
  intros Hs Ho. rewrite (receive_eq self s Hs Ho).
  set (r := set_buffer (buffer self ++ in_waiting s) _).
  rewrite (read_frame_open (set_buffer b r) (mkSerial true [])
             eq_refl eq_refl).
  reflexivity.
Qed.

(** C1.  A decode attempt that finds at least four bytes in the buffer
    (after the read from the port) does one of three things.  When the
    first byte is not a known address, or the second byte is more than
    64, the call goes on as a call on the buffer without its first byte.
    When first and second byte are fine and the buffer holds fewer than
    length + 2 bytes, the call returns [False] and the buffer is as it
    was.  Otherwise the first length + 2 bytes are taken out as the frame
    and handed to [_parse_frame], the call returns [True], and what is
    left in the buffer is exactly the bytes behind that frame: one frame
    per call. *)
Theorem read_frame_cases (self : CRSFReceiver) (s : Serial)
  (b0 b1 : byte) (rest : list byte) :
  serial self = Some s -> is_open s = true ->
  buffer (receive s self) = b0 :: b1 :: rest ->
  4 <= len (b0 :: b1 :: rest) ->
  let buf := b0 :: b1 :: rest in
  let total_length := b2z b1 + 2 in
  (is_address (b2z b0) = false \/ b2z b1 > CRSF_MAX_PACKET_SIZE ->
   sync_loop buf = sync_loop (b1 :: rest) /\
   read_frame self = read_frame (set_buffer (b1 :: rest) (receive s self)))
  /\
  (is_address (b2z b0) = true -> b2z b1 <= CRSF_MAX_PACKET_SIZE ->
   len buf < total_length ->
   read_frame self = Some (false, receive s self) /\
   buffer (receive s self) = buf)
  /\
  (is_address (b2z b0) = true -> b2z b1 <= CRSF_MAX_PACKET_SIZE ->
   total_length <= len buf ->
   sync_loop buf =
     Extracted (slice_to total_length buf) (slice_from total_length buf) /\
   read_frame self =
     (self' <- _parse_frame (slice_to total_length buf)
                 (set_buffer (slice_from total_length buf)
                    (receive s self)) ;;
      Some (true, self')) /\
   forall ok self', read_frame self = Some (ok, self') ->
     ok = true /\ buffer self' = slice_from total_length buf /\
     len (buffer self') = len buf - total_length).
Proof.
  intros Hs Ho Hb H4 buf total_length.
  pose proof (read_frame_open self s Hs Ho) as Hrf. rewrite Hb in Hrf.
  pose proof (sync_loop_eq buf) as Heq.
  replace (len buf <? 4) with false in Heq
    by (symmetry; apply Z.ltb_ge; exact H4).
  change (getitem buf 0) with (b2z b0) in Heq.
  change (getitem buf 1) with (b2z b1) in Heq.
  change (tl buf) with (b1 :: rest) in Heq.
  fold total_length in Heq. fold buf in Hrf.
  split; [|split].
  - intros H.
    assert (Hs1 : sync_loop buf = sync_loop (b1 :: rest)).
    { destruct H as [Ha | Hl].
      - now rewrite Heq, Ha.
      - destruct (negb _); [exact Heq|].
        replace (b2z b1 >? CRSF_MAX_PACKET_SIZE) with true in Heq
          by cmp_by_lia.
        exact Heq. }
    split; [exact Hs1|].
    rewrite (read_frame_received self s _ Hs Ho), Hrf.
    now rewrite Hs1.
  - intros Ha Hl Hlt.
    rewrite Ha in Heq. cbn [negb] in Heq.
    replace (b2z b1 >? CRSF_MAX_PACKET_SIZE) with false in Heq
      by cmp_by_lia.
    replace (len buf <? total_length) with true in Heq
      by cmp_by_lia.
    rewrite Heq in Hrf. split; [|exact Hb].
    rewrite Hrf. unfold buf. rewrite <- Hb. now rewrite set_buffer_same.
  - intros Ha Hl Hge.
    rewrite Ha in Heq. cbn [negb] in Heq.
    replace (b2z b1 >? CRSF_MAX_PACKET_SIZE) with false in Heq
      by cmp_by_lia.
    replace (len buf <? total_length) with false in Heq
      by cmp_by_lia.
    rewrite Heq in Hrf.
    split; [exact Heq|]. split; [exact Hrf|].
    intros ok self'. rewrite Hrf.
    destruct (_parse_frame _ _) as [r|] eqn:Ep; cbn [bind]; [|discriminate].
    intros [= <- <-]. apply _parse_frame_keeps in Ep.
    destruct Ep as [_ Ebuf]. cbn [buffer set_buffer] in Ebuf.
    split; [reflexivity|]. split; [exact Ebuf|].
    rewrite Ebuf.
    pose proof (b2z_range b1).
    pose proof (slice_to_from total_length buf) as Hsplit.
    apply (f_equal len) in Hsplit. rewrite len_app in Hsplit.
    rewrite len_slice_to in Hsplit by (unfold total_length; lia). lia.
Qed.

Lemma read_frame_cases_witness :
  read_frame (arrive [xc8; x05; x16; x00] (open init)) =
  Some (false,
        set_buffer [xc8; x05; x16; x00]
          (set_serial (Some (mkSerial true [])) init)).
Proof.
  refine (proj1 (proj1 (proj2
    (read_frame_cases (arrive [xc8; x05; x16; x00] (open init))
       (mkSerial true [xc8; x05; x16; x00]) xc8 x05 [x16; x00]
       eq_refl eq_refl eq_refl _)) eq_refl _ _)).
  - vm_compute. discriminate.
  - vm_compute. discriminate.
  - vm_compute. reflexivity.
Defined.

(** ** [_parse_frame] on damaged and on short frames *)

(** C2.  A frame of four bytes or more whose last byte is not the CRC8
    of the bytes from the type byte to the end of the payload is counted
    as an error, once, and nothing else of the receiver changes:
    [frame_count], the channel values and the seven link statistics stay
    as they were. *)
Theorem parse_frame_crc_mismatch (frame : list byte)
  (self : CRSFReceiver) :
  4 <= len frame ->
  last_byte frame <> _calculate_crc (slice_mid 2 frame) ->
  exists self',
    _parse_frame frame self = Some self' /\
    error_count self' = error_count self + 1 /\
    frame_count self' = frame_count self /\
    channels self' = channels self /\
    rssi_1 self' = rssi_1 self /\
    rssi_2 self' = rssi_2 self /\
    link_quality self' = link_quality self /\
    snr self' = snr self /\
    active_antenna self' = active_antenna self /\
    rf_mode self' = rf_mode self /\
    tx_power self' = tx_power self.
Proof.
  intros Hlen Hcrc. unfold _parse_frame.
  replace (len frame <? 4) with false by cmp_by_lia.
  apply Z.eqb_neq in Hcrc. rewrite Hcrc. cbn [negb].
  eexists. split; [reflexivity|]. cbn. repeat split.
Qed.

Lemma parse_frame_crc_mismatch_witness :
  exists self',
    _parse_frame [xc8; x02; x16; x00] init = Some self' /\
    error_count self' = 1 /\ frame_count self' = 0.
Proof.
  destruct (parse_frame_crc_mismatch [xc8; x02; x16; x00] init)
    as (self' & Hp & He & Hf & _).
  - vm_compute. discriminate.
  - vm_compute. discriminate.
  - exists self'. split; [exact Hp|]. split; [exact He | exact Hf].
Defined.

(** C10.  When the frame taken out of the buffer has a length byte of 0
    or 1, it is two or three bytes long: [read_frame] returns [True] and
    the buffer holds the bytes behind the frame, but no CRC is checked
    and neither counter, no channel value and no link statistic
    changes. *)
Theorem read_frame_short_frame (self : CRSFReceiver) (s : Serial)
  (frame rest : list byte) :
  serial self = Some s -> is_open s = true ->
  sync_loop (buffer (receive s self)) = Extracted frame rest ->
  getitem frame 1 = 0 \/ getitem frame 1 = 1 ->
  exists self',
    read_frame self = Some (true, self') /\
    len frame < 4 /\
    buffer self' = rest /\
    frame_count self' = frame_count self /\
    error_count self' = error_count self /\
    channels self' = channels self /\
    rssi_1 self' = rssi_1 self /\
    rssi_2 self' = rssi_2 self /\
    link_quality self' = link_quality self /\
    snr self' = snr self /\
    active_antenna self' = active_antenna self /\
    rf_mode self' = rf_mode self /\
    tx_power self' = tx_power self.
Proof.
  intros Hs Ho Hx Hl.
  destruct (sync_loop_extracted _ _ _ Hx) as (_ & _ & _ & _ & _ & Hlen).
  assert (Hshort : len frame < 4) by lia.
  exists (set_buffer rest (receive s self)).
  rewrite (read_frame_open self s Hs Ho), Hx.
  unfold _parse_frame.
  replace (len frame <? 4) with true by cmp_by_lia.
  rewrite (receive_eq self s Hs Ho).
  cbn. repeat split. exact Hshort.
Qed.

Lemma read_frame_short_frame_witness :
  exists self',
    read_frame (arrive [xc8; x01; x05; x06] (open init)) =
      Some (true, self') /\
    buffer self' = [x06] /\ frame_count self' = 0 /\ error_count self' = 0.
Proof.
  destruct (read_frame_short_frame
              (arrive [xc8; x01; x05; x06] (open init))
              (mkSerial true [xc8; x01; x05; x06])
              [xc8; x01; x05] [x06] eq_refl eq_refl eq_refl
              (or_intror eq_refl))
    as (self' & Hr & _ & Hb & Hf & He & _).
  exists self'. repeat split; assumption.
Defined.

(** ** Noise *)

Lemma sync_loop_noise (data : list byte) :
  noise data ->
  sync_loop data = NeedMore (skipn (length data - 3) data).
Proof.
  induction 1 as [|b0 t Hb0 Ht IH]; [reflexivity|].
  rewrite sync_loop_eq.
  destruct (len (b0 :: t) <? 4) eqn:E4.
  - apply Z.ltb_lt in E4. unfold len in E4.
    replace (length (b0 :: t) - 3)%nat with O by lia. reflexivity.
  - apply Z.ltb_ge in E4. unfold len in E4. cbn [length] in *.
    change (getitem (b0 :: t) 0) with (b2z b0). rewrite Hb0.
    cbn [negb tl]. rewrite IH.
    replace (S (length t) - 3)%nat with (S (length t - 3)) by lia.
    reflexivity.
Qed.

Lemma sync_loop_short (buf : list byte) :
  len buf < 4 -> sync_loop buf = NeedMore buf.
Proof.
  intros H. rewrite sync_loop_eq.
  now replace (len buf <? 4) with true by cmp_by_lia.
Qed.

(** C7, as the code has it.  On a stream without any address byte the
    first [read_frame] call after the bytes have arrived drops one byte
    per turn of its loop for as long as four bytes are left, so it keeps
    the last three bytes of the stream (all of it when it is shorter) and
    returns [False]; the polling loop ends there, further calls change
    nothing, and both counters are still 0. *)
Theorem noise_is_dropped (data : list byte) :
  noise data ->
  exists self',
    feed data (open init) = Some self' /\
    read_frame (arrive data (open init)) = Some (false, self') /\
    read_frame self' = Some (false, self') /\
    buffer self' = skipn (length data - 3) data /\
    len (buffer self') = Z.min (len data) 3 /\
    frame_count self' = 0 /\
    error_count self' = 0.
Proof.
  intros Hn.
  set (self0 := arrive data (open init)).
  set (self' := set_buffer (skipn (length data - 3) data)
                  (set_serial (Some (mkSerial true [])) init)).
  assert (Hrf : read_frame self0 = Some (false, self')).
  { rewrite (read_frame_open self0 (mkSerial true data) eq_refl eq_refl).
    rewrite (receive_eq self0 (mkSerial true data) eq_refl eq_refl).
    cbn [buffer set_buffer set_serial self0 arrive open init serial
         is_open in_waiting app].
    now rewrite (sync_loop_noise data Hn). }
  assert (Hlen : len (buffer self') = Z.min (len data) 3).
  { cbn [self' buffer set_buffer]. unfold len. rewrite length_skipn. lia. }
  exists self'. repeat split.
  - unfold feed, drain. fold self0. cbn [drain_fuel]. now rewrite Hrf.
  - exact Hrf.
  - rewrite (read_frame_open self' (mkSerial true []) eq_refl eq_refl).
    change (receive (mkSerial true []) self') with self'.
    rewrite sync_loop_short by lia. reflexivity.
  - exact Hlen.
Qed.

Lemma noise_is_dropped_witness :
  exists self',
    feed [x01; x02; x03; x04; x05] (open init) = Some self' /\
    buffer self' = [x03; x04; x05].
Proof.
  destruct (noise_is_dropped [x01; x02; x03; x04; x05])
    as (self' & Hf & _ & _ & Hb & _).
  - repeat constructor.
  - exists self'. split; [exact Hf | exact Hb].
Defined.

(** C7, as the claim has it, fails: five bytes of noise leave three bytes
    in the buffer, not none. *)
Lemma noise_not_drained_to_empty :
  ~ (forall data, noise data ->
       exists self',
         feed data (open init) = Some self' /\
         buffer self' = [] /\
         frame_count self' = 0 /\ error_count self' = 0).
Proof.
  intros H.
  destruct (H [x01; x02; x03; x04; x05]) as (self' & Hf & Hb & _).
  - repeat constructor.
  - vm_compute in Hf. injection Hf as <-. discriminate Hb.
Qed.

(** ** The polling loop *)

Lemma _parse_frame_set_buffer frame b self :
  _parse_frame frame (set_buffer b self) =
  option_map (set_buffer b) (_parse_frame frame self).
Proof.
  pose proof (_parse_frame_frame_rule frame b (serial self) self) as H.
  replace (set_serial (serial self) self) with self in H
    by (destruct self; reflexivity).
  rewrite H. destruct (_parse_frame frame self) as [r|] eqn:E;
    [|reflexivity].
  apply _parse_frame_keeps in E. destruct E as [E _].
  cbn [option_map]. f_equal. rewrite <- E. destruct r; reflexivity.
Qed.

Lemma drains_deterministic buf self r1 r2 :
  drains buf self r1 -> drains buf self r2 -> r1 = r2.
Proof.
  intros H1. revert r2.
  induction H1 as [buf b self Hs | buf f rest self Hs Hp
                  | buf f rest self self' r Hs Hp _ IH];
    intros r2 H2; inversion H2; subst; try congruence.
  apply IH.
  match goal with
  | Ha : sync_loop buf = Extracted ?f1 ?r1,
    Hb : sync_loop buf = Extracted ?f2 ?r2 |- _ =>
      assert (f1 = f2 /\ r1 = r2) as [-> ->] by (split; congruence)
  end.
  match goal with
  | Ha : _parse_frame ?f ?x = Some ?p1,
    Hb : _parse_frame ?f ?x = Some ?p2 |- _ =>
      assert (p1 = p2) as -> by congruence
  end.
  assumption.
Qed.

(** The loop overwrites the buffer field before it reads it. *)
Lemma drains_set_buffer buf b self r :
  drains buf (set_buffer b self) r <-> drains buf self r.
Proof.
  split; intros H; inversion H; subst.
  - apply (drains_stop buf b0 self). assumption.
  - apply (drains_raise buf frame rest self); assumption.
  - apply (drains_frame buf frame rest self self'); assumption.
  - apply (drains_stop buf b0 (set_buffer b self)). assumption.
  - apply (drains_raise buf frame rest (set_buffer b self)); assumption.
  - apply (drains_frame buf frame rest (set_buffer b self) self');
      assumption.
Qed.

Lemma drains_keeps buf self self' :
  drains buf self (Some self') ->
  serial self' = serial self /\ sync_loop (buffer self') = NeedMore (buffer self').
Proof.
  intros H. remember (Some self') as r eqn:Er. revert self' Er.
  induction H as [buf b self Hs | buf f rest self Hs Hp
                 | buf f rest self self1 r Hs Hp _ IH];
    intros self' Er.
  - injection Er as <-. split; [reflexivity|].
    apply sync_loop_needmore in Hs. apply Hs.
  - discriminate.
  - destruct (IH self' Er) as [E1 E2]. split; [|exact E2].
    rewrite E1. apply _parse_frame_keeps in Hp. apply Hp.
Qed.

(** Bytes that come in behind the buffer after the loop has ended lead
    to the same end as if they had been there from the start. *)
Lemma drains_app_raise buf c self :
  drains buf self None -> drains (buf ++ c) self None.
Proof.
  intros H. remember None as r eqn:Er.
  induction H as [buf b self Hs | buf f rest self Hs Hp
                 | buf f rest self self1 r Hs Hp _ IH].
  - discriminate.
  - apply (drains_raise _ f (rest ++ c)).
    + now apply sync_loop_app_extracted.
    + rewrite _parse_frame_set_buffer in *.
      destruct (_parse_frame f self); [discriminate | reflexivity].
  - rewrite _parse_frame_set_buffer in Hp.
    destruct (_parse_frame f self) as [p|] eqn:Ep; [|discriminate].
    injection Hp as <-.
    apply (drains_frame _ f (rest ++ c) self (set_buffer (rest ++ c) p)).
    + now apply sync_loop_app_extracted.
    + rewrite _parse_frame_set_buffer, Ep. reflexivity.
    + apply drains_set_buffer. apply drains_set_buffer in IH; auto.
Qed.

Lemma drains_app buf c self self1 r :
  drains buf self (Some self1) ->
  drains (buffer self1 ++ c) self1 r ->
  drains (buf ++ c) self r.
Proof.
  intros H. remember (Some self1) as r1 eqn:Er. revert self1 Er.
  induction H as [buf b self Hs | buf f rest self Hs Hp
                 | buf f rest self self2 r2 Hs Hp _ IH];
    intros self1 Er H2.
  - injection Er as <-. cbn [buffer set_buffer] in H2.
    apply drains_set_buffer in H2.
    pose proof (sync_loop_app_needmore buf c b Hs) as Hsame.
    inversion H2; subst.
    + apply drains_stop. congruence.
    + apply (drains_raise _ frame rest); congruence.
    + apply (drains_frame _ frame rest self self'); congruence.
  - discriminate.
  - rewrite _parse_frame_set_buffer in Hp.
    destruct (_parse_frame f self) as [p|] eqn:Ep; [|discriminate].
    injection Hp as <-.
    apply (drains_frame _ f (rest ++ c) self (set_buffer (rest ++ c) p)).
    + now apply sync_loop_app_extracted.
    + rewrite _parse_frame_set_buffer, Ep. reflexivity.
    + apply drains_set_buffer.
      specialize (IH self1 Er H2). apply drains_set_buffer in IH. exact IH.
Qed.

Lemma read_frame_idle (buf : list byte) (self : CRSFReceiver) :
  serial self = idle ->
  read_frame (set_buffer buf self) =
  match sync_loop buf with
  | NeedMore b => Some (false, set_buffer b self)
  | Extracted frame rest =>
      self' <- _parse_frame frame (set_buffer rest self) ;;
      Some (true, self')
  end.
Proof.
  intros Hs.
  now rewrite (read_frame_open (set_buffer buf self) (mkSerial true []) Hs
                 eq_refl).
Qed.

Lemma extracted_shorter (buf frame rest : list byte) :
  sync_loop buf = Extracted frame rest ->
  (length rest + 2 <= length buf)%nat.
Proof.
  intros H. apply sync_loop_extracted in H.
  destruct H as (d & -> & _ & _ & _ & Hl).
  pose proof (b2z_range (nth 1 frame x00)) as Hr. fold (getitem frame 1) in Hr.
  unfold len in Hl. rewrite !length_app. lia.
Qed.

(** With more calls allowed than the buffer has bytes, the bounded loop
    runs to the end of the derivation. *)
Lemma drain_fuel_drains (n : nat) :
  forall buf self,
    serial self = idle -> (length buf < n)%nat ->
    drains buf self (drain_fuel n (set_buffer buf self)).
Proof.
  induction n as [|n IH]; intros buf self Hs Hn; [lia|].
  cbn [drain_fuel]. rewrite (read_frame_idle buf self Hs).
  destruct (sync_loop buf) as [b | frame rest] eqn:Hx.
  - cbn [bind fst snd]. now apply drains_stop.
  - destruct (_parse_frame frame (set_buffer rest self)) as [p|] eqn:Hp;
      cbn [bind fst snd].
    + apply (drains_frame buf frame rest self p _ Hx Hp).
      pose proof (_parse_frame_keeps _ _ _ Hp) as [Hps Hpb].
      cbn [buffer serial set_buffer] in Hps, Hpb.
      pose proof (extracted_shorter _ _ _ Hx) as Hlt.
      assert (Hi : serial p = idle) by congruence.
      assert (Hr : (length rest < n)%nat) by lia.
      specialize (IH rest p Hi Hr).
      replace (set_buffer rest p) with p in IH
        by (rewrite <- Hpb; symmetry; apply set_buffer_same).
      exact IH.
    + now apply (drains_raise buf frame rest).
Qed.

Lemma drain_fuel_open (n : nat) (self : CRSFReceiver) (q : list byte) :
  serial self = Some (mkSerial true q) ->
  drain_fuel (S n) self =
  drain_fuel (S n) (set_buffer (buffer self ++ q) (set_serial idle self)).
Proof.
  intros Hs. cbn [drain_fuel].
  rewrite (read_frame_idle _ (set_serial idle self) eq_refl).
  rewrite (read_frame_open self _ Hs eq_refl).
  now rewrite (receive_eq self _ Hs eq_refl).
Qed.

Lemma drain_open (self : CRSFReceiver) (q : list byte) :
  serial self = Some (mkSerial true q) ->
  drains (buffer self ++ q) (set_serial idle self) (drain self).
Proof.
  intros Hs. unfold drain. rewrite (drain_fuel_open _ self q Hs).
  apply drain_fuel_drains; [reflexivity|].
  unfold backlog. rewrite Hs, length_app. cbn [in_waiting]. lia.
Qed.

(** Without an open port [read_frame] returns [False] at once. *)
Lemma drain_not_open (self : CRSFReceiver) :
  (forall q, serial self <> Some (mkSerial true q)) ->
  drain self = Some self.
Proof.
  intros Hs. unfold drain. cbn [drain_fuel]. unfold read_frame.
  destruct (serial self) as [[o q]|]; [|reflexivity].
  destruct o; [now destruct (Hs q) | reflexivity].
Qed.

Lemma arrive_not_open (c : list byte) (self : CRSFReceiver) :
  (forall q, serial self <> Some (mkSerial true q)) ->
  arrive c self = self.
Proof.
  intros Hs. unfold arrive.
  destruct (serial self) as [[o q]|]; [|reflexivity].
  destruct o; [now destruct (Hs q) | reflexivity].
Qed.

Lemma feed_drains (c : list byte) (self : CRSFReceiver) (q : list byte) :
  serial self = Some (mkSerial true q) ->
  drains (buffer self ++ q ++ c) (set_serial idle self) (feed c self).
Proof.
  intros Hs. unfold feed.
  assert (Ha : arrive c self =
               set_serial (Some (mkSerial true (q ++ c))) self).
  { unfold arrive. now rewrite Hs. }
  rewrite Ha.
  apply (drain_open (set_serial (Some (mkSerial true (q ++ c))) self)
           (q ++ c) eq_refl).
Qed.

(** Two chunks one after the other, with the loop run after each, end as
    the two chunks in one piece do. *)
Lemma feed_app (c1 c2 : list byte) (self : CRSFReceiver) :
  (self1 <- feed c1 self ;; feed c2 self1) = feed (c1 ++ c2) self.
Proof.
  destruct (serial self) as [[[|] q]|] eqn:Hs.
  - pose proof (feed_drains c1 self q Hs) as H1.
    pose proof (feed_drains (c1 ++ c2) self q Hs) as H12.
    replace (buffer self ++ q ++ c1 ++ c2)
      with ((buffer self ++ q ++ c1) ++ c2) in H12
      by (now rewrite <- !app_assoc).
    destruct (feed c1 self) as [self1|]; cbn [bind].
    + destruct (drains_keeps _ _ _ H1) as [Hs1 _].
      cbn [serial set_serial] in Hs1.
      pose proof (feed_drains c2 self1 [] Hs1) as H2.
      replace (set_serial idle self1) with self1 in H2
        by (destruct self1; cbn in *; now subst).
      cbn [app] in H2.
      exact (drains_deterministic _ _ _ _ (drains_app _ _ _ _ _ H1 H2) H12).
    + exact (drains_deterministic _ _ _ _ (drains_app_raise _ c2 _ H1) H12).
  - assert (Hn : forall q', serial self <> Some (mkSerial true q'))
      by (rewrite Hs; discriminate).
    unfold feed. rewrite !arrive_not_open, !drain_not_open by assumption.
    cbn [bind]. now rewrite !arrive_not_open, !drain_not_open by assumption.
  - assert (Hn : forall q', serial self <> Some (mkSerial true q'))
      by (rewrite Hs; discriminate).
    unfold feed. rewrite !arrive_not_open, !drain_not_open by assumption.
    cbn [bind]. now rewrite !arrive_not_open, !drain_not_open by assumption.
Qed.

Lemma bind_some {A : Type} (m : option A) : (x <- m ;; Some x) = m.
Proof. now destruct m. Qed.

(** The polling loop has come to its end when [drain] returns: the next
    [read_frame] returns [False] and changes nothing. *)
Lemma drain_quiescent (self self' : CRSFReceiver) :
  drain self = Some self' -> read_frame self' = Some (false, self').
Proof.
  intros Hd.
  destruct (serial self) as [[[|] q]|] eqn:Hs.
  - pose proof (drain_open self q Hs) as H. rewrite Hd in H.
    destruct (drains_keeps _ _ _ H) as [Hs' Hb].
    cbn [serial set_serial] in Hs'.
    rewrite <- (set_buffer_same self') at 1.
    rewrite (read_frame_idle _ self' Hs'), Hb.
    now rewrite set_buffer_same.
  - rewrite drain_not_open in Hd by (rewrite Hs; discriminate).
    injection Hd as <-. unfold read_frame. now rewrite Hs.
  - rewrite drain_not_open in Hd by (rewrite Hs; discriminate).
    injection Hd as <-. unfold read_frame. now rewrite Hs.
Qed.

(** More calls than [drain] allows do not lead anywhere else. *)
Lemma drain_fuel_enough (self : CRSFReceiver) (n : nat) :
  (backlog self < n)%nat -> drain_fuel n self = drain self.
Proof.
  intros Hn. destruct n as [|n]; [lia|].
  destruct (serial self) as [[[|] q]|] eqn:Hs.
  - pose proof (drain_open self q Hs) as H.
    rewrite (drain_fuel_open _ self q Hs).
    eapply drains_deterministic; [|exact H].
    apply drain_fuel_drains; [reflexivity|].
    unfold backlog in Hn. rewrite Hs in Hn. cbn [in_waiting] in Hn.
    rewrite length_app. lia.
  - rewrite drain_not_open by (rewrite Hs; discriminate).
    cbn [drain_fuel]. unfold read_frame. now rewrite Hs.
  - rewrite drain_not_open by (rewrite Hs; discriminate).
    cbn [drain_fuel]. unfold read_frame. now rewrite Hs.
Qed.

(** C5.  However a byte sequence is cut into chunks, feeding the chunks
    one by one, with the polling loop run to its end after each, leaves
    the receiver in the very state that feeding the whole sequence at
    once leaves it in: the same channel values, link statistics,
    [frame_count] and [error_count], and the same bytes in the buffer. *)
Theorem chunking_invariance (chunks : list (list byte))
  (self : CRSFReceiver) :
  chunks <> [] ->
  feed_chunks chunks self = feed (concat chunks) self.
Proof.
  destruct chunks as [|c cs]; [congruence|]. intros _.
  revert c self. induction cs as [|c' cs IH]; intros c self.
  - cbn [feed_chunks concat]. rewrite app_nil_r. apply bind_some.
  - cbn [feed_chunks] in *. cbn [concat].
    rewrite <- feed_app.
    destruct (feed c self) as [self1|]; cbn [bind]; [|reflexivity].
    apply IH.
Qed.

Lemma chunking_invariance_witness :
  feed_chunks [[xc8; x05]; [x16; x00; x01]] (open init) =
  feed (concat [[xc8; x05]; [x16; x00; x01]]) (open init).
Proof.
  apply (chunking_invariance [[xc8; x05]; [x16; x00; x01]] (open init)).
  discriminate.
Defined.

(** ** The channel store *)

Lemma channel_of_bits_range (bits : Z) (i : nat) :
  0 <= channel_of_bits bits i <= 2047.
Proof.
  unfold channel_of_bits. change 0x7FF with (Z.ones 11).
  rewrite Z.land_ones by lia.
  change (2 ^ 11) with 2048. change (Z.ones 11) with 2047.
  pose proof (Z.mod_pos_bound (Z.shiftr bits (Z.of_nat i * 11)) 2048).
  lia.
Qed.

Lemma setitem_app (a b : list Z) (x v : Z) :
  setitem (a ++ x :: b) (length a) v = Some (a ++ v :: b).
Proof.
  induction a as [|y a IH]; [reflexivity|].
  cbn [app length setitem]. now rewrite IH.
Qed.

(** The sixteen assignments overwrite sixteen consecutive places. *)
Lemma store_channels_app (bits : Z) (n : nat) :
  forall a old b,
    length old = n ->
    store_channels bits (length a) n (a ++ old ++ b) =
    Some (a ++ map (channel_of_bits bits) (seq (length a) n) ++ b).
Proof.
  induction n as [|n IH]; intros a old b Hlen.
  - destruct old; [reflexivity | discriminate].
  - destruct old as [|x old]; [discriminate|].
    injection Hlen as Hlen.
    cbn [store_channels app]. rewrite setitem_app. cbn [bind].
    specialize (IH (a ++ [channel_of_bits bits (length a)]) old b Hlen).
    rewrite length_app, Nat.add_1_r, <- !app_assoc in IH.
    exact IH.
Qed.

Lemma _parse_rc_channels_stores (payload : list byte)
  (self : CRSFReceiver) :
  22 <= len payload -> length (channels self) = 16%nat ->
  _parse_rc_channels payload self =
  Some (set_channels
          (map (channel_of_bits (from_bytes_le (slice_to 22 payload)))
             (seq 0 16)) self).
Proof.
  intros Hp Hc. unfold _parse_rc_channels.
  replace (len payload <? 22) with false by cmp_by_lia.
  pose proof (store_channels_app (from_bytes_le (slice_to 22 payload)) 16
                [] (channels self) [] Hc) as H.
  rewrite app_nil_r in H. cbn [app length] in H. rewrite H.
  cbn [bind]. now rewrite app_nil_r.
Qed.

(** ** What holds of every receiver *)

Lemma init_well_formed : well_formed init.
Proof.
  repeat split; cbn; try lia.
  repeat constructor; unfold channel_range; lia.
Qed.

Lemma _parse_rc_channels_well_formed payload self :
  well_formed self ->
  exists self', _parse_rc_channels payload self = Some self' /\
                well_formed self'.
Proof.
  intros (Hl & Hc & Hq).
  destruct (Z.ltb_spec (len payload) 22) as [Hp | Hp].
  - exists self. unfold _parse_rc_channels.
    replace (len payload <? 22) with true by cmp_by_lia.
    now repeat split.
  - eexists. split; [now apply _parse_rc_channels_stores|].
    split; [|split]; cbn [channels link_quality set_channels].
    + now rewrite length_map, length_seq.
    + apply Forall_map, Forall_forall. intros i _.
      apply channel_of_bits_range.
    + exact Hq.
Qed.

Lemma _parse_link_statistics_well_formed payload self :
  well_formed self -> well_formed (_parse_link_statistics payload self).
Proof.
  intros (Hl & Hc & Hq). unfold _parse_link_statistics.
  destruct (len payload <? 10); [now repeat split|].
  split; [|split]; cbn [channels link_quality set_link];
    [exact Hl | exact Hc | apply b2z_range].
Qed.

Lemma _parse_frame_well_formed frame self :
  well_formed self ->
  exists self', _parse_frame frame self = Some self' /\ well_formed self'.
Proof.
  intros Hw. unfold _parse_frame.
  destruct (len frame <? 4); [now exists self|].
  destruct (negb _); [now eexists|].
  assert (Hw' : well_formed (set_frame_count (frame_count self + 1) self))
    by exact Hw.
  destruct (getitem frame 2 =? frame_type_value RC_CHANNELS_PACKED).
  - now apply _parse_rc_channels_well_formed.
  - destruct (_ =? _); [|now eexists].
    eexists. split; [reflexivity|].
    now apply _parse_link_statistics_well_formed.
Qed.

Lemma read_frame_well_formed self :
  well_formed self ->
  exists ok self', read_frame self = Some (ok, self') /\ well_formed self'.
Proof.
  intros Hw. unfold read_frame.
  destruct (serial self) as [s|]; [|now exists false, self].
  destruct (negb (is_open s)); [now exists false, self|].
  assert (Hr : well_formed (receive s self)).
  { unfold receive. destruct (_ >? _); exact Hw. }
  destruct (sync_loop _) as [b | frame rest].
  - now exists false, (set_buffer b (receive s self)).
  - destruct (_parse_frame_well_formed frame
                (set_buffer rest (receive s self)) Hr) as (p & -> & Hp).
    now exists true, p.
Qed.

Lemma step_well_formed e self :
  well_formed self ->
  exists self', step e self = Some self' /\ well_formed self'.
Proof.
  intros Hw. destruct e as [| |data|]; cbn [step].
  - now eexists.
  - eexists. split; [reflexivity|]. unfold close.
    destruct (serial self) as [s|]; [|exact Hw].
    destruct (is_open s); exact Hw.
  - eexists. split; [reflexivity|]. unfold arrive.
    destruct (serial self) as [s|]; [|exact Hw].
    destruct (is_open s); exact Hw.
  - destruct (read_frame_well_formed self Hw) as (ok & p & -> & Hp).
    now exists p.
Qed.

(** Every history of a receiver runs without an exception and ends in a
    well-formed receiver. *)
Lemma run_well_formed es :
  forall self, well_formed self ->
  exists self', run es self = Some self' /\ well_formed self'.
Proof.
  induction es as [|e es IH]; intros self Hw; [now exists self|].
  cbn [run]. destruct (step_well_formed e self Hw) as (p & -> & Hp).
  cbn [bind]. now apply IH.
Qed.

(** C6.  Whatever happens to a receiver after its construction (the port
    is opened or closed, bytes arrive, [read_frame] is called, in any
    order and number), no call raises, there are sixteen channel values
    and each of them lies in [0, 2047]. *)
Theorem channels_in_range (es : list event) :
  exists self,
    run es init = Some self /\
    length (channels self) = 16%nat /\
    Forall (fun c => 0 <= c <= 2047) (channels self).
Proof.
  destruct (run_well_formed es init init_well_formed)
    as (self & Hr & Hl & Hc & _).
  now exists self.
Qed.

(** C3, as the code has it.  Whatever happens to a receiver after its
    construction, [link_quality] is a byte value: it lies in [0, 255].
    It is the third payload byte of the last link statistics frame as it
    came, or 0 when there was none. *)
Theorem link_quality_is_byte (es : list event) :
  exists self,
    run es init = Some self /\ 0 <= link_quality self <= 255.
Proof.
  destruct (run_well_formed es init init_well_formed)
    as (self & Hr & _ & _ & Hq).
  now exists self.
Qed.

(** C3, as the claim has it, fails: a link statistics frame with a valid
    CRC whose third payload byte is 200 sets [link_quality] to 200. *)
Lemma link_quality_above_100 :
  ~ (forall es self,
       run es init = Some self -> 0 <= link_quality self <= 100).
Proof.
  intros H.
  set (es := [Open;
              Arrive (make_frame USB LINK_STATISTICS
                        [x32; x30; xc8; xf6; x01; x02; x14;
                         x00; x00; x00]);
              ReadFrame]).
  destruct (run es init) as [self|] eqn:E.
  - specialize (H es self E). vm_compute in E. injection E as <-.
    cbn [link_quality] in H. lia.
  - vm_compute in E. discriminate.
Qed.

(** ** Packing and unpacking the channels *)

Lemma pack_from_S (vs : list Z) :
  forall i, pack_from (S i) vs = 2048 * pack_from i vs.
Proof.
  induction vs as [|v r IH]; intros i; [reflexivity|].
  cbn [pack_from]. rewrite (IH (S i)), (IH i).
  rewrite !Z.shiftl_mul_pow2 by lia.
  replace (Z.of_nat (S i) * 11) with (Z.of_nat i * 11 + 11) by lia.
  rewrite Z.pow_add_r by lia. change (2 ^ 11) with 2048. ring.
Qed.

Lemma pack_from_cons (v : Z) (r : list Z) :
  pack_from 0 (v :: r) = v + 2048 * pack_from 0 r.
Proof.
  cbn [pack_from]. rewrite pack_from_S.
  change (Z.of_nat 0 * 11) with 0. now rewrite Z.shiftl_0_r.
Qed.

Lemma pack_from_bound (vs : list Z) :
  Forall channel_range vs ->
  0 <= pack_from 0 vs < 2 ^ (11 * Z.of_nat (length vs)).
Proof.
  induction 1 as [|v r Hv _ IH]; [cbn; lia|].
  rewrite pack_from_cons. cbn [length].
  replace (11 * Z.of_nat (S (length r)))
    with (11 + 11 * Z.of_nat (length r)) by lia.
  rewrite Z.pow_add_r by lia. change (2 ^ 11) with 2048.
  unfold channel_range in Hv. lia.
Qed.

Lemma channel_of_bits_0 (v p : Z) :
  channel_range v -> channel_of_bits (v + 2048 * p) 0 = v.
Proof.
  intros Hv. unfold channel_range in Hv. unfold channel_of_bits.
  change (Z.of_nat 0 * 11) with 0. rewrite Z.shiftr_0_r.
  change 0x7FF with (Z.ones 11). rewrite Z.land_ones by lia.
  change (2 ^ 11) with 2048.
  rewrite (Z.mul_comm 2048 p), Z.mod_add by lia.
  apply Z.mod_small. lia.
Qed.

Lemma channel_of_bits_S (v p : Z) (i : nat) :
  channel_range v ->
  channel_of_bits (v + 2048 * p) (S i) = channel_of_bits p i.
Proof.
  intros Hv. unfold channel_range in Hv. unfold channel_of_bits.
  replace (Z.of_nat (S i) * 11) with (11 + Z.of_nat i * 11) by lia.
  rewrite <- Z.shiftr_shiftr by lia.
  rewrite (Z.shiftr_div_pow2 (v + 2048 * p) 11) by lia.
  change (2 ^ 11) with 2048.
  rewrite (Z.mul_comm 2048 p), Z.div_add by lia.
  rewrite Z.div_small by lia. reflexivity.
Qed.

(** Reading the sixteen (or however many) slots of a packed integer gives
    the packed values back. *)
Lemma unpack_pack (vs : list Z) :
  Forall channel_range vs ->
  map (channel_of_bits (pack_from 0 vs)) (seq 0 (length vs)) = vs.
Proof.
  induction 1 as [|v r Hv _ IH]; [reflexivity|].
  cbn [length seq map]. rewrite pack_from_cons.
  rewrite (channel_of_bits_0 v _ Hv). f_equal.
  rewrite <- seq_shift, map_map.
  rewrite <- IH at 2. apply map_ext. intros i.
  now apply channel_of_bits_S.
Qed.

Lemma to_bytes_le_S (n : nat) (x : Z) :
  to_bytes_le (S n) x =
  z2b (Z.land x 0xFF) :: to_bytes_le n (Z.shiftr x 8).
Proof.
  unfold to_bytes_le. cbn [seq map].
  change (8 * Z.of_nat 0) with 0. rewrite Z.shiftr_0_r. f_equal.
  rewrite <- seq_shift, map_map. apply map_ext. intros k.
  rewrite Z.shiftr_shiftr by lia. do 3 f_equal. lia.
Qed.

Lemma from_bytes_to_bytes (n : nat) :
  forall x, 0 <= x ->
  from_bytes_le (to_bytes_le n x) = x mod 2 ^ (8 * Z.of_nat n).
Proof.
  induction n as [|n IH]; intros x Hx.
  - cbn. now rewrite Z.mod_1_r.
  - rewrite to_bytes_le_S. cbn [from_bytes_le].
    rewrite Z.shiftr_div_pow2 by lia. change (2 ^ 8) with 256.
    rewrite IH by (apply Z.div_pos; lia).
    change 0xFF with (Z.ones 8). rewrite Z.land_ones by lia.
    change (2 ^ 8) with 256.
    rewrite b2z_z2b by (pose proof (Z.mod_pos_bound x 256); lia).
    replace (8 * Z.of_nat (S n)) with (8 + 8 * Z.of_nat n) by lia.
    rewrite Z.pow_add_r by lia. change (2 ^ 8) with 256.
    rewrite Z.rem_mul_r by lia. reflexivity.
Qed.

Lemma length_to_bytes_le (n : nat) (x : Z) : length (to_bytes_le n x) = n.
Proof. unfold to_bytes_le. now rewrite length_map, length_seq. Qed.

(** C4.  Sixteen values of eleven bits each, packed into 22 bytes with
    value [i] at bit offset [i * 11] of the little-endian integer, come
    back unchanged as the channel values when [_parse_rc_channels]
    decodes those 22 bytes. *)
Theorem rc_channels_roundtrip (vs : list Z) (self : CRSFReceiver) :
  length vs = 16%nat ->
  Forall (fun v => 0 <= v <= 2047) vs ->
  length (channels self) = 16%nat ->
  len (pack_channels vs) = 22 /\
  exists self',
    _parse_rc_channels (pack_channels vs) self = Some self' /\
    channels self' = vs.
Proof.
  intros Hlen Hvs Hc.
  assert (Hp : len (pack_channels vs) = 22).
  { unfold len, pack_channels. now rewrite length_to_bytes_le. }
  split; [exact Hp|].
  eexists. split; [apply _parse_rc_channels_stores; [lia | exact Hc]|].
  cbn [channels set_channels].
  assert (Hs : slice_to 22 (pack_channels vs) = pack_channels vs).
  { unfold slice_to. apply firstn_all2. unfold len in Hp. lia. }
  rewrite Hs. unfold pack_channels.
  pose proof (pack_from_bound vs Hvs) as Hb. rewrite Hlen in Hb.
  rewrite from_bytes_to_bytes by lia.
  rewrite Z.mod_small by exact Hb.
  rewrite <- Hlen at 1. now apply unpack_pack.
Qed.

Lemma rc_channels_roundtrip_witness :
  exists self',
    _parse_rc_channels
      (pack_channels [992; 0; 172; 1811; 2047; 1; 2; 3; 4; 5; 6; 7; 8; 9;
                      10; 11]) init = Some self' /\
    channels self' = [992; 0; 172; 1811; 2047; 1; 2; 3; 4; 5; 6; 7; 8; 9;
                      10; 11].
Proof.
  refine (proj2 (rc_channels_roundtrip
    [992; 0; 172; 1811; 2047; 1; 2; 3; 4; 5; 6; 7; 8; 9; 10; 11] init
    eq_refl _ eq_refl)).
  repeat constructor; lia.
Defined.

(** ** Link statistics *)

(** What [_parse_link_statistics] stores from a payload that is long
    enough: six bytes as they are and the fourth one as a signed char. *)
Lemma _parse_link_statistics_stores (payload : list byte)
  (self : CRSFReceiver) :
  10 <= len payload ->
  _parse_link_statistics payload self =
  set_link (getitem payload 0) (getitem payload 1) (getitem payload 2)
    (unpack_b (getitem payload 3)) (getitem payload 4) (getitem payload 5)
    (getitem payload 6) self.
Proof.
  intros H. unfold _parse_link_statistics.
  now replace (len payload <? 10) with false by cmp_by_lia.
Qed.

(** C8, at a payload whose first two bytes are 0xC8 and 0x88.  Read as
    signed chars they are -56 and -120; the receiver stores 200 and 136,
    the bytes as they came, while the fourth byte 0xF6 is stored as the
    signed -10. *)
Theorem rssi_stored_unsigned :
  let payload := [xc8; x88; x64; xf6; x01; x02; x14; x00; x00; x00] in
  let self' := _parse_link_statistics payload init in
  rssi_1 self' = 200 /\ rssi_2 self' = 136 /\
  unpack_b (getitem payload 0) = -56 /\
  unpack_b (getitem payload 1) = -120 /\
  snr self' = -10 /\
  ~ (-128 <= rssi_1 self' <= 127) /\ ~ (-128 <= rssi_2 self' <= 127).
Proof.
  vm_compute. repeat split; try reflexivity; intros [_ H]; now apply H.
Qed.

(** C9, as the code has it.  A well-formed LINK_STATISTICS frame, under
    any of the known addresses, whose payload is the seven bytes
    50, 48, 75, 0xF6, 1, 2, 20 followed by three bytes 0 (the ten bytes
    that [_parse_link_statistics] asks for) is decoded by the polling loop
    of a fresh receiver: the seven bytes go to [rssi_1], [rssi_2],
    [link_quality], [snr], [active_antenna], [rf_mode] and [tx_power] in
    this order, with [link_quality] 75 and [snr] -10, the signed reading
    of 0xF6. *)
Theorem link_statistics_scenario (addr : CRSFAddress) :
  exists self',
    feed (make_frame addr LINK_STATISTICS
            (scenario_payload ++ [x00; x00; x00])) (open init) =
      Some self' /\
    link_quality self' = 75 /\
    snr self' = -10 /\
    snr self' = unpack_b (getitem scenario_payload 3) /\
    rssi_1 self' = 50 /\ rssi_2 self' = 48 /\
    active_antenna self' = 1 /\ rf_mode self' = 2 /\ tx_power self' = 20 /\
    frame_count self' = 1 /\ error_count self' = 0 /\ buffer self' = [].
Proof.
  destruct addr; eexists; (split; [vm_compute; reflexivity|]);
    vm_compute; repeat split.
Qed.

(** C9, as the claim has it, fails: with the seven bytes as the whole
    payload the frame is counted but not decoded, under every address,
    and [link_quality] and [snr] stay 0. *)
Lemma link_statistics_scenario_seven_bytes :
  ~ (exists addr self',
       feed (make_frame addr LINK_STATISTICS scenario_payload)
         (open init) = Some self' /\
       link_quality self' = 75 /\ snr self' = -10).
Proof.
  intros (addr & self' & Hf & Hq & _).
  destruct addr; vm_compute in Hf; injection Hf as <-; discriminate Hq.
Qed.

(** * Further properties of the decoder *)

(** ** [_calculate_crc] *)

(** The eight rounds and the mask, on the byte that the accumulator has
    become after the XOR. *)
Lemma crc_update_table (crc : Z) (b : byte) :
  crc_update crc b = crc_table (Z.lxor crc (b2z b)).
Proof. reflexivity. Qed.

Lemma crc_table_range (x : Z) : 0 <= crc_table x <= 255.
Proof.
  unfold crc_table. change 0xFF with (Z.ones 8).
  rewrite Z.land_ones by lia.
  change (2 ^ 8) with 256. change (Z.ones 8) with 255.
  pose proof (Z.mod_pos_bound (Nat.iter 8 crc_round x) 256). lia.
Qed.

Lemma lxor_byte (x y : Z) :
  0 <= x <= 255 -> 0 <= y <= 255 -> 0 <= Z.lxor x y <= 255.
Proof.
  intros Hx Hy.
  assert (H0 : 0 <= Z.lxor x y) by (apply Z.lxor_nonneg; lia).
  split; [exact H0|].
  destruct (Z.eq_dec (Z.lxor x y) 0) as [E | E]; [lia|].
  enough (Z.lxor x y < 2 ^ 8) by (change (2 ^ 8) with 256 in *; lia).
  apply Z.log2_lt_pow2; [lia|].
  pose proof (Z.log2_lxor x y ltac:(lia) ltac:(lia)) as Hl.
  assert (Hbx : Z.log2 x < 8).
  { destruct (Z.eq_dec x 0) as [-> | Nx]; [cbn; lia|].
    apply Z.log2_lt_pow2; change (2 ^ 8) with 256; lia. }
  assert (Hby : Z.log2 y < 8).
  { destruct (Z.eq_dec y 0) as [-> | Ny]; [cbn; lia|].
    apply Z.log2_lt_pow2; change (2 ^ 8) with 256; lia. }
  lia.
Qed.

Lemma lxor_cancel_r (x y z : Z) : Z.lxor x z = Z.lxor y z -> x = y.
Proof.
  intros H. apply (f_equal (fun t => Z.lxor t z)) in H.
  now rewrite !Z.lxor_assoc, Z.lxor_nilpotent, !Z.lxor_0_r in H.
Qed.

Lemma lxor_cancel_l (x y z : Z) : Z.lxor z x = Z.lxor z y -> x = y.
Proof. rewrite !(Z.lxor_comm z). apply lxor_cancel_r. Qed.

(** The table has 256 different entries (checked entry by entry). *)
Lemma crc_table_injective (x y : Z) :
  0 <= x <= 255 -> 0 <= y <= 255 -> crc_table x = crc_table y -> x = y.
Proof.
  intros Hx Hy.
  assert (Hall : forallb (fun i => forallb (fun j =>
            implb (crc_table (Z.of_nat i) =? crc_table (Z.of_nat j))
                  (Nat.eqb i j)) (seq 0 256)) (seq 0 256) = true)
    by (vm_compute; reflexivity).
  rewrite forallb_forall in Hall.
  specialize (Hall (Z.to_nat x) ltac:(apply in_seq; lia)).
  rewrite forallb_forall in Hall.
  specialize (Hall (Z.to_nat y) ltac:(apply in_seq; lia)).
  rewrite !Z2Nat.id in Hall by lia.
  intros E. apply Z.eqb_eq in E. rewrite E in Hall. cbn [implb] in Hall.
  apply Nat.eqb_eq in Hall. lia.
Qed.

Lemma crc_fold_range (data : list byte) :
  forall crc, 0 <= crc <= 255 ->
  0 <= fold_left crc_update data crc <= 255.
Proof.
  induction data as [|b t IH]; intros crc Hc; [exact Hc|].
  cbn [fold_left]. apply IH. rewrite crc_update_table.
  apply crc_table_range.
Qed.

(** The checksum of any byte sequence is a byte. *)
Lemma calculate_crc_range (data : list byte) :
  0 <= _calculate_crc data <= 255.
Proof. apply crc_fold_range. lia. Qed.

(** X1.  A byte sequence followed by its own checksum has checksum 0. *)
Theorem calculate_crc_residue (data : list byte) :
  _calculate_crc (data ++ [z2b (_calculate_crc data)]) = 0.
Proof.
  unfold _calculate_crc at 1. rewrite fold_left_app. cbn [fold_left].
  fold (_calculate_crc data). rewrite crc_update_table.
  rewrite b2z_z2b by apply calculate_crc_range.
  now rewrite Z.lxor_nilpotent.
Qed.

(** The accumulators of two runs stay different over the same bytes. *)
Lemma crc_fold_injective (data : list byte) :
  forall c c', 0 <= c <= 255 -> 0 <= c' <= 255 ->
  fold_left crc_update data c = fold_left crc_update data c' -> c = c'.
Proof.
  induction data as [|b t IH]; intros c c' Hc Hc'; [trivial|].
  cbn [fold_left]. intros H.
  apply IH in H; try (rewrite crc_update_table; apply crc_table_range).
  rewrite !crc_update_table in H.
  apply crc_table_injective in H;
    try (apply lxor_byte; [assumption | apply b2z_range]).
  now apply lxor_cancel_r in H.
Qed.

Lemma b2z_injective (b b' : byte) : b2z b = b2z b' -> b = b'.
Proof.
  unfold b2z. intros H. apply N2Z.inj in H.
  apply (f_equal Byte.of_N) in H. rewrite !Byte.of_to_N in H.
  congruence.
Qed.

(** Two accumulators that are equal before two different bytes differ
    after them and after any bytes that follow. *)
Lemma crc_fold_differs (suf : list byte) (b b' : byte) (c : Z) :
  0 <= c <= 255 -> b <> b' ->
  fold_left crc_update (b :: suf) c <> fold_left crc_update (b' :: suf) c.
Proof.
  intros Hc Hb H. cbn [fold_left] in H.
  apply crc_fold_injective in H;
    try (rewrite crc_update_table; apply crc_table_range).
  rewrite !crc_update_table in H.
  apply crc_table_injective in H;
    try (apply lxor_byte; [assumption | apply b2z_range]).
  apply lxor_cancel_l in H. now apply b2z_injective in H.
Qed.

(** X2.  Changing one byte of a sequence, whichever and however,
    changes its checksum. *)
Theorem calculate_crc_detects_byte (pre suf : list byte) (b b' : byte) :
  b <> b' ->
  _calculate_crc (pre ++ b :: suf) <> _calculate_crc (pre ++ b' :: suf).
Proof.
  intros Hb. unfold _calculate_crc. rewrite !fold_left_app.
  apply crc_fold_differs; [|exact Hb].
  apply crc_fold_range. lia.
Qed.

Lemma calculate_crc_detects_byte_witness :
  _calculate_crc ([x16] ++ x01 :: [x02]) <>
  _calculate_crc ([x16] ++ x03 :: [x02]).
Proof.
  apply (calculate_crc_detects_byte [x16] [x02] x01 x03). discriminate.
Defined.

(** ** The CRC check of [_parse_frame] *)

Lemma frame_split (frame : list byte) :
  3 <= len frame ->
  skipn 2 frame = slice_mid 2 frame ++ [last frame x00].
Proof.
  intros H. unfold slice_mid.
  assert (Hne : frame <> []) by (intros ->; cbn in H; lia).
  rewrite (app_removelast_last x00 Hne) at 1.
  rewrite skipn_app.
  assert (Hl : length (removelast frame) = (length frame - 1)%nat).
  { rewrite (app_removelast_last x00 Hne) at 2.
    rewrite length_app. cbn [length]. lia. }
  rewrite Hl. unfold len in H.
  replace (2 - (length frame - 1))%nat with O by lia. reflexivity.
Qed.

(** The checksum of a sequence with one more byte is 0 exactly when
    this byte is the checksum of the sequence. *)
Lemma crc_last_zero (body : list byte) (x : byte) :
  _calculate_crc (body ++ [x]) = 0 <-> b2z x = _calculate_crc body.
Proof.
  unfold _calculate_crc at 1. rewrite fold_left_app. cbn [fold_left].
  fold (_calculate_crc body). rewrite crc_update_table.
  pose proof (calculate_crc_range body) as Hc.
  pose proof (b2z_range x) as Hb.
  split.
  - intros E. change 0 with (crc_table 0) in E.
    apply crc_table_injective in E; [|now apply lxor_byte | lia].
    apply Z.lxor_eq in E. now symmetry.
  - intros ->. now rewrite Z.lxor_nilpotent.
Qed.

(** X3.  A frame passes the CRC check of [_parse_frame] exactly when
    the checksum of all its bytes from the type byte on, the CRC byte
    included, is 0. *)
Theorem crc_check_residue (frame : list byte) :
  3 <= len frame ->
  (last_byte frame = _calculate_crc (slice_mid 2 frame) <->
   _calculate_crc (skipn 2 frame) = 0).
Proof.
  intros H. rewrite (frame_split frame H).
  unfold last_byte. symmetry. apply crc_last_zero.
Qed.

Lemma crc_check_residue_witness :
  last_byte [xc8; x02; x16; x00] =
    _calculate_crc (slice_mid 2 [xc8; x02; x16; x00]) <->
  _calculate_crc (skipn 2 [xc8; x02; x16; x00]) = 0.
Proof.
  apply (crc_check_residue [xc8; x02; x16; x00]). vm_compute. discriminate.
Defined.

(** X4.  When a frame passes the CRC check and one of its bytes from the
    type byte on (type, payload or CRC byte) is replaced by another
    value, [_parse_frame] counts the damaged frame as an error and
    decodes nothing. *)
Theorem damaged_frame_is_an_error (pre suf : list byte) (b b' : byte)
  (self : CRSFReceiver) :
  (2 <= length pre)%nat ->
  4 <= len (pre ++ b :: suf) ->
  last_byte (pre ++ b :: suf) =
    _calculate_crc (slice_mid 2 (pre ++ b :: suf)) ->
  b <> b' ->
  _parse_frame (pre ++ b' :: suf) self =
  Some (set_error_count (error_count self + 1) self).
Proof.
  intros Hpre Hlen Hok Hb.
  assert (Hlen' : len (pre ++ b' :: suf) = len (pre ++ b :: suf)).
  { unfold len. rewrite !length_app. reflexivity. }
  unfold last_byte in Hok. apply crc_last_zero in Hok.
  rewrite <- frame_split in Hok by lia.
  assert (Hbad : last_byte (pre ++ b' :: suf) <>
                 _calculate_crc (slice_mid 2 (pre ++ b' :: suf))).
  { intros E. unfold last_byte in E. apply crc_last_zero in E.
    rewrite <- frame_split in E by lia.
    rewrite skipn_app in Hok, E.
    replace (2 - length pre)%nat with O in Hok, E by lia.
    change (skipn 0 (b :: suf)) with (b :: suf) in Hok.
    change (skipn 0 (b' :: suf)) with (b' :: suf) in E.
    unfold _calculate_crc in Hok, E. rewrite fold_left_app in Hok, E.
    apply (crc_fold_differs suf b b'
             (fold_left crc_update (skipn 2 pre) 0));
      [apply crc_fold_range; lia | exact Hb | congruence]. }
  unfold _parse_frame.
  replace (len (pre ++ b' :: suf) <? 4) with false by cmp_by_lia.
  apply Z.eqb_neq in Hbad. now rewrite Hbad.
Qed.

Lemma damaged_frame_is_an_error_witness :
  _parse_frame ([xc8; x03; x16] ++ x01 :: [x8a]) init =
  Some (set_error_count 1 init).
Proof.
  apply (damaged_frame_is_an_error [xc8; x03; x16] [x8a] x00 x01 init).
  - cbn. lia.
  - vm_compute. discriminate.
  - vm_compute. reflexivity.
  - discriminate.
Defined.

(** X5.  [_parse_frame] never looks at the address byte and the length
    byte: two frames that agree from the type byte on are parsed
    alike. *)
Theorem parse_frame_ignores_header (a l a' l' : byte) (body : list byte)
  (self : CRSFReceiver) :
  _parse_frame (a :: l :: body) self = _parse_frame (a' :: l' :: body) self.
Proof.
  destruct body as [|t body]; [reflexivity|].
  unfold _parse_frame, slice_mid, last_byte.
  replace (len (a' :: l' :: t :: body)) with (len (a :: l :: t :: body))
    by reflexivity.
  change (getitem (a' :: l' :: t :: body) 2)
    with (getitem (a :: l :: t :: body) 2).
  change (last (a' :: l' :: t :: body) x00)
    with (last (a :: l :: t :: body) x00).
  change (removelast (a' :: l' :: t :: body))
    with (a' :: l' :: removelast (t :: body)).
  change (removelast (a :: l :: t :: body))
    with (a :: l :: removelast (t :: body)).
  reflexivity.
Qed.

(** ** Frames as a sender builds them *)

Lemma frame_type_value_byte (ty : CRSFFrameType) :
  b2z (z2b (frame_type_value ty)) = frame_type_value ty.
Proof. destruct ty; reflexivity. Qed.

Lemma address_value_is_address (addr : CRSFAddress) :
  is_address (b2z (z2b (address_value addr))) = true.
Proof. destruct addr; reflexivity. Qed.

Lemma make_frame_shape (addr : CRSFAddress) (ty : CRSFFrameType)
  (payload : list byte) :
  make_frame addr ty payload =
  (z2b (address_value addr) :: z2b (len payload + 2)
     :: z2b (frame_type_value ty) :: payload)
  ++ [z2b (_calculate_crc (z2b (frame_type_value ty) :: payload))].
Proof.
  unfold make_frame. cbn [app].
  replace (len (z2b (frame_type_value ty) :: payload) + 1)
    with (len payload + 2); [reflexivity|].
  unfold len. cbn [length]. lia.
Qed.

Lemma len_make_frame (addr : CRSFAddress) (ty : CRSFFrameType)
  (payload : list byte) :
  len (make_frame addr ty payload) = len payload + 4.
Proof.
  rewrite make_frame_shape. unfold len. rewrite length_app.
  cbn [length]. lia.
Qed.

(** A frame built as [address][length][type][payload][crc] with the
    CRC8 of type and payload passes the check of [_parse_frame], and its
    payload goes to the decoder of its type. *)
Lemma parse_frame_built (addr : CRSFAddress) (ty : CRSFFrameType)
  (payload : list byte) (self : CRSFReceiver) :
  _parse_frame (make_frame addr ty payload) self =
  let counted := set_frame_count (frame_count self + 1) self in
  match ty with
  | RC_CHANNELS_PACKED => _parse_rc_channels payload counted
  | LINK_STATISTICS => Some (_parse_link_statistics payload counted)
  | _ => Some counted
  end.
Proof.
  pose proof (len_make_frame addr ty payload) as Hlen.
  pose proof (len_nonneg payload) as Hp.
  unfold _parse_frame.
  replace (len (make_frame addr ty payload) <? 4) with false by cmp_by_lia.
  unfold slice_mid, last_byte, getitem.
  rewrite make_frame_shape, removelast_last, last_last.
  cbn [skipn nth].
  rewrite b2z_z2b by apply calculate_crc_range.
  rewrite Z.eqb_refl. cbn [negb app nth].
  rewrite frame_type_value_byte.
  destruct ty; reflexivity.
Qed.

(** One turn of the loop on a first byte that is no address. *)
Lemma sync_loop_drop (b0 : byte) (t : list byte) :
  is_address (b2z b0) = false -> 4 <= len (b0 :: t) ->
  sync_loop (b0 :: t) = sync_loop t.
Proof.
  intros Hb0 H4. rewrite sync_loop_eq.
  replace (len (b0 :: t) <? 4) with false by cmp_by_lia.
  change (getitem (b0 :: t) 0) with (b2z b0). now rewrite Hb0.
Qed.

(** X6.  Bytes that are no device address are skipped as long as four
    bytes or more follow them: the loop goes on as on the bytes behind
    them. *)
Theorem sync_loop_skips_noise (garbage buf : list byte) :
  noise garbage -> 4 <= len buf ->
  sync_loop (garbage ++ buf) = sync_loop buf.
Proof.
  intros Hn H4. induction Hn as [|b0 t Hb0 _ IH]; [reflexivity|].
  cbn [app]. rewrite (sync_loop_drop b0 (t ++ buf) Hb0); [exact IH|].
  change (b0 :: t ++ buf) with ((b0 :: t) ++ buf).
  rewrite len_app. pose proof (len_nonneg (b0 :: t)). lia.
Qed.

Lemma sync_loop_skips_noise_witness :
  sync_loop ([x01; x02] ++ [xc8; x02; x16; x00]) =
  sync_loop [xc8; x02; x16; x00].
Proof.
  apply (sync_loop_skips_noise [x01; x02] [xc8; x02; x16; x00]).
  - repeat constructor.
  - vm_compute. discriminate.
Defined.

(** A built frame with a payload of at most 62 bytes (so that its length
    byte is at most 64), with any noise in front of it and any bytes
    behind it, is what the loop takes out of the buffer. *)
Lemma sync_loop_built (garbage rest : list byte)
  (addr : CRSFAddress) (ty : CRSFFrameType) (payload : list byte) :
  noise garbage -> len payload <= 62 ->
  sync_loop (garbage ++ make_frame addr ty payload ++ rest) =
  Extracted (make_frame addr ty payload) rest.
Proof.
  intros Hn Hp.
  pose proof (len_make_frame addr ty payload) as Hlen.
  pose proof (len_nonneg payload) as Hp0.
  pose proof (len_nonneg rest) as Hr0.
  induction Hn as [|b0 t Hb0 _ IH].
  2:{ cbn [app]. rewrite (sync_loop_drop b0 _ Hb0); [exact IH|].
      change (b0 :: t ++ make_frame addr ty payload ++ rest)
        with ((b0 :: t) ++ make_frame addr ty payload ++ rest).
      rewrite !len_app. pose proof (len_nonneg (b0 :: t)). lia. }
  cbn [app].
  rewrite sync_loop_eq, len_app.
  replace (len (make_frame addr ty payload) + len rest <? 4) with false
    by cmp_by_lia.
  assert (Hl4 : (4 <= length (make_frame addr ty payload))%nat)
    by (unfold len in Hlen; lia).
  rewrite !getitem_app by lia.
  assert (H0 : getitem (make_frame addr ty payload) 0 =
               b2z (z2b (address_value addr)))
    by (now rewrite make_frame_shape).
  assert (H1 : getitem (make_frame addr ty payload) 1 = len payload + 2).
  { rewrite make_frame_shape. unfold getitem. cbn [app nth].
    apply b2z_z2b. lia. }
  rewrite H0, H1, address_value_is_address. cbn [negb].
  replace (len payload + 2 >? CRSF_MAX_PACKET_SIZE) with false
    by (unfold CRSF_MAX_PACKET_SIZE; cmp_by_lia).
  replace (len (make_frame addr ty payload) + len rest <?
           len payload + 2 + 2) with false by cmp_by_lia.
  replace (len payload + 2 + 2) with (len (make_frame addr ty payload))
    by lia.
  unfold slice_to, slice_from, len. rewrite Nat2Z.id.
  rewrite firstn_app, skipn_app, Nat.sub_diag, firstn_all, skipn_all.
  cbn [firstn skipn app]. now rewrite app_nil_r.
Qed.

(** ** From the wire to the fields *)

(** A call that finds a built frame behind some noise hands exactly this
    frame to [_parse_frame] and leaves the bytes behind it. *)
Lemma read_frame_built (self : CRSFReceiver) (s : Serial)
  (garbage rest : list byte) (addr : CRSFAddress) (ty : CRSFFrameType)
  (payload : list byte) :
  serial self = Some s -> is_open s = true ->
  buffer self ++ in_waiting s =
    garbage ++ make_frame addr ty payload ++ rest ->
  noise garbage -> len payload <= 62 ->
  read_frame self =
  (self' <- _parse_frame (make_frame addr ty payload)
              (set_buffer rest
                 (set_serial (Some (mkSerial true [])) self)) ;;
   Some (true, self')).
Proof.
  intros Hs Ho Hb Hn Hp.
  rewrite (read_frame_open self s Hs Ho), (receive_eq self s Hs Ho).
  cbn [buffer set_buffer]. rewrite Hb.
  now rewrite (sync_loop_built garbage rest addr ty payload Hn Hp).
Qed.

Lemma packed_bits (vs : list Z) :
  length vs = 16%nat -> Forall channel_range vs ->
  from_bytes_le (slice_to 22 (pack_channels vs)) = pack_from 0 vs.
Proof.
  intros Hlen Hvs.
  assert (Hs : slice_to 22 (pack_channels vs) = pack_channels vs).
  { unfold slice_to. apply firstn_all2. unfold pack_channels.
    rewrite length_to_bytes_le. lia. }
  rewrite Hs. unfold pack_channels.
  pose proof (pack_from_bound vs Hvs) as Hb. rewrite Hlen in Hb.
  rewrite from_bytes_to_bytes by lia.
  now rewrite Z.mod_small by exact Hb.
Qed.

(** X7.  Sixteen channel values in [0, 2047], packed and put into an
    RC_CHANNELS_PACKED frame under any address, arrive in the channel
    list by one [read_frame] call, whatever noise stands in front of the
    frame and whatever bytes follow it: the call returns [True],
    [frame_count] goes up by one, [error_count] and the link statistics
    stay, and the bytes behind the frame stay in the buffer. *)
Theorem rc_frame_end_to_end (self : CRSFReceiver) (s : Serial)
  (garbage rest : list byte) (addr : CRSFAddress) (vs : list Z) :
  serial self = Some s -> is_open s = true ->
  buffer self ++ in_waiting s =
    garbage ++ make_frame addr RC_CHANNELS_PACKED (pack_channels vs)
    ++ rest ->
  noise garbage ->
  length vs = 16%nat -> Forall (fun v => 0 <= v <= 2047) vs ->
  length (channels self) = 16%nat ->
  exists self',
    read_frame self = Some (true, self') /\
    channels self' = vs /\
    buffer self' = rest /\
    frame_count self' = frame_count self + 1 /\
    error_count self' = error_count self /\
    (rssi_1 self', rssi_2 self', link_quality self', snr self') =
      (rssi_1 self, rssi_2 self, link_quality self, snr self) /\
    (active_antenna self', rf_mode self', tx_power self') =
      (active_antenna self, rf_mode self, tx_power self).
Proof.
  intros Hs Ho Hb Hn Hlen Hvs Hc.
  assert (Hp : len (pack_channels vs) = 22).
  { unfold len, pack_channels. now rewrite length_to_bytes_le. }
  rewrite (read_frame_built self s garbage rest addr RC_CHANNELS_PACKED
             (pack_channels vs) Hs Ho Hb Hn) by lia.
  rewrite parse_frame_built. cbn zeta.
  rewrite _parse_rc_channels_stores by (trivial; lia).
  rewrite (packed_bits vs Hlen Hvs).
  cbn [bind]. eexists. split; [reflexivity|].
  split; [|repeat split].
  cbn [channels set_channels].
  rewrite <- Hlen at 1. now apply unpack_pack.
Qed.

Lemma rc_frame_end_to_end_witness :
  exists self',
    read_frame
      (arrive ([x01; x02] ++
               make_frame USB RC_CHANNELS_PACKED
                 (pack_channels [992; 0; 172; 1811; 2047; 1; 2; 3; 4; 5;
                                 6; 7; 8; 9; 10; 11]) ++ [xc8])
         (open init)) = Some (true, self') /\
    channels self' = [992; 0; 172; 1811; 2047; 1; 2; 3; 4; 5; 6; 7; 8; 9;
                      10; 11] /\
    buffer self' = [xc8].
Proof.
  destruct (rc_frame_end_to_end
    (arrive ([x01; x02] ++
             make_frame USB RC_CHANNELS_PACKED
               (pack_channels [992; 0; 172; 1811; 2047; 1; 2; 3; 4; 5;
                               6; 7; 8; 9; 10; 11]) ++ [xc8])
       (open init))
    (mkSerial true
       ([x01; x02] ++
        make_frame USB RC_CHANNELS_PACKED
          (pack_channels [992; 0; 172; 1811; 2047; 1; 2; 3; 4; 5;
                          6; 7; 8; 9; 10; 11]) ++ [xc8]))
    [x01; x02] [xc8] USB
    [992; 0; 172; 1811; 2047; 1; 2; 3; 4; 5; 6; 7; 8; 9; 10; 11]
    eq_refl eq_refl eq_refl)
    as (self' & Hr & Hch & Hbuf & _).
  - repeat constructor.
  - reflexivity.
  - repeat constructor; lia.
  - reflexivity.
  - exists self'. repeat split; assumption.
Defined.

(** X8.  A LINK_STATISTICS frame under any address whose payload has
    between 10 and 62 bytes is decoded by one [read_frame] call, behind
    any noise: payload bytes 0, 1, 2, 4, 5, 6 go unchanged to [rssi_1],
    [rssi_2], [link_quality], [active_antenna], [rf_mode], [tx_power],
    byte 3 goes to [snr] as a signed char; [frame_count] goes up by one
    and the channel values stay. *)
Theorem link_frame_end_to_end (self : CRSFReceiver) (s : Serial)
  (garbage rest : list byte) (addr : CRSFAddress) (payload : list byte) :
  serial self = Some s -> is_open s = true ->
  buffer self ++ in_waiting s =
    garbage ++ make_frame addr LINK_STATISTICS payload ++ rest ->
  noise garbage ->
  10 <= len payload <= 62 ->
  exists self',
    read_frame self = Some (true, self') /\
    rssi_1 self' = getitem payload 0 /\
    rssi_2 self' = getitem payload 1 /\
    link_quality self' = getitem payload 2 /\
    snr self' = unpack_b (getitem payload 3) /\
    active_antenna self' = getitem payload 4 /\
    rf_mode self' = getitem payload 5 /\
    tx_power self' = getitem payload 6 /\
    channels self' = channels self /\
    buffer self' = rest /\
    frame_count self' = frame_count self + 1 /\
    error_count self' = error_count self.
Proof.
  intros Hs Ho Hb Hn Hp.
  rewrite (read_frame_built self s garbage rest addr LINK_STATISTICS
             payload Hs Ho Hb Hn) by lia.
  rewrite parse_frame_built. cbn zeta.
  rewrite _parse_link_statistics_stores by lia.
  cbn [bind]. eexists. split; [reflexivity|].
  cbn. repeat split.
Qed.

Lemma link_frame_end_to_end_witness :
  exists self',
    read_frame
      (arrive (make_frame CRSF_RECEIVER LINK_STATISTICS
                 [x32; x30; x4b; xf6; x01; x02; x14; x00; x00; x00])
         (open init)) = Some (true, self') /\
    link_quality self' = 75 /\ snr self' = -10.
Proof.
  destruct (link_frame_end_to_end
    (arrive (make_frame CRSF_RECEIVER LINK_STATISTICS
               [x32; x30; x4b; xf6; x01; x02; x14; x00; x00; x00])
       (open init))
    (mkSerial true
       (make_frame CRSF_RECEIVER LINK_STATISTICS
          [x32; x30; x4b; xf6; x01; x02; x14; x00; x00; x00]))
    [] [] CRSF_RECEIVER
    [x32; x30; x4b; xf6; x01; x02; x14; x00; x00; x00]
    eq_refl eq_refl)
    as (self' & Hr & _ & _ & Hq & Hsn & _).
  - cbn [app]. now rewrite app_nil_r.
  - constructor.
  - vm_compute. split; discriminate.
  - exists self'. repeat split; assumption.
Defined.

(** X9.  A frame with a valid CRC that has another type than
    RC_CHANNELS_PACKED and LINK_STATISTICS, or an RC_CHANNELS_PACKED
    payload of fewer than 22 bytes, or a LINK_STATISTICS payload of fewer
    than 10 bytes, is counted in [frame_count] and changes nothing
    else: no channel value, no link statistic, no error. *)
Theorem valid_frame_not_decoded (addr : CRSFAddress) (ty : CRSFFrameType)
  (payload : list byte) (self : CRSFReceiver) :
  (ty <> RC_CHANNELS_PACKED /\ ty <> LINK_STATISTICS) \/
  (ty = RC_CHANNELS_PACKED /\ len payload < 22) \/
  (ty = LINK_STATISTICS /\ len payload < 10) ->
  _parse_frame (make_frame addr ty payload) self =
  Some (set_frame_count (frame_count self + 1) self).
Proof.
  intros H. rewrite parse_frame_built. cbn zeta.
  destruct H as [[H1 H2] | [[-> H] | [-> H]]].
  - destruct ty; congruence.
  - unfold _parse_rc_channels.
    now replace (len payload <? 22) with true by cmp_by_lia.
  - unfold _parse_link_statistics.
    now replace (len payload <? 10) with true by cmp_by_lia.
Qed.

Lemma valid_frame_not_decoded_witness :
  _parse_frame (make_frame USB RC_CHANNELS_PACKED [x01; x02]) init =
  Some (set_frame_count 1 init).
Proof.
  apply (valid_frame_not_decoded USB RC_CHANNELS_PACKED [x01; x02] init).
  right. left. split; [reflexivity | vm_compute; reflexivity].
Defined.

(** ** Calls that return [False] *)

(** X10.  A [read_frame] call that returns [False] has decoded and
    counted nothing: channel values, link statistics and both counters
    are as before the call. *)
Theorem read_frame_false_keeps (self self' : CRSFReceiver) :
  read_frame self = Some (false, self') ->
  channels self' = channels self /\
  frame_count self' = frame_count self /\
  error_count self' = error_count self /\
  (rssi_1 self', rssi_2 self', link_quality self', snr self') =
    (rssi_1 self, rssi_2 self, link_quality self, snr self) /\
  (active_antenna self', rf_mode self', tx_power self') =
    (active_antenna self, rf_mode self, tx_power self).
Proof.
  unfold read_frame.
  destruct (serial self) as [s|] eqn:Hs; [|now intros [= <-]].
  destruct (is_open s) eqn:Ho; cbn [negb]; [|now intros [= <-]].
  rewrite (receive_eq self s Hs Ho).
  destruct (sync_loop _) as [b | frame rest].
  - intros [= <-]. repeat split.
  - destruct (_parse_frame _ _); cbn [bind]; discriminate.
Qed.

Lemma read_frame_false_keeps_witness :
  channels (set_buffer [xc8; x05; x16; x00]
              (set_serial (Some (mkSerial true [])) init)) = channels init.
Proof.
  apply (read_frame_false_keeps (arrive [xc8; x05; x16; x00] (open init))).
  vm_compute. reflexivity.
Defined.

(** What the loop leaves of the tail of a buffer is not the buffer. *)
Lemma sync_loop_tl_shorter (b : list byte) :
  4 <= len b -> sync_loop (tl b) <> NeedMore b.
Proof.
  intros H4 Hx. apply sync_loop_needmore in Hx.
  destruct Hx as [[d Hd] _]. apply (f_equal (@length byte)) in Hd.
  rewrite length_app in Hd. destruct b; cbn in *; lia.
Qed.

(** X11.  After a [read_frame] call on an open port that returns
    [False], at most 65 bytes wait in the buffer: fewer than four, or the
    beginning of a frame whose length byte is at most 64. *)
Theorem read_frame_false_buffer_bound (self self' : CRSFReceiver)
  (s : Serial) :
  serial self = Some s -> is_open s = true ->
  read_frame self = Some (false, self') ->
  len (buffer self') <= 65.
Proof.
  intros Hs Ho. rewrite (read_frame_open self s Hs Ho).
  destruct (sync_loop _) as [b | frame rest] eqn:Hx.
  - intros [= <-]. cbn [buffer set_buffer].
    apply sync_loop_needmore in Hx. destruct Hx as [_ Hb].
    rewrite sync_loop_eq in Hb.
    destruct (len b <? 4) eqn:E4; [apply Z.ltb_lt in E4; lia|].
    apply Z.ltb_ge in E4.
    destruct (negb _); [now apply sync_loop_tl_shorter in Hb|].
    destruct (getitem b 1 >? CRSF_MAX_PACKET_SIZE) eqn:El;
      [now apply sync_loop_tl_shorter in Hb|].
    destruct (len b <? getitem b 1 + 2) eqn:Et; [|discriminate].
    apply Z.ltb_lt in Et. rewrite Z.gtb_ltb in El.
    apply Z.ltb_ge in El. unfold CRSF_MAX_PACKET_SIZE in El. lia.
  - destruct (_parse_frame _ _); cbn [bind]; discriminate.
Qed.

Lemma read_frame_false_buffer_bound_witness :
  len (buffer (set_buffer [xc8; x05; x16; x00]
                 (set_serial (Some (mkSerial true [])) init))) <= 65.
Proof.
  apply (read_frame_false_buffer_bound
           (arrive [xc8; x05; x16; x00] (open init)) _
           (mkSerial true [xc8; x05; x16; x00]) eq_refl eq_refl).
  vm_compute. reflexivity.
Defined.

(** ** Histories *)

Lemma read_frame_counts (self self' : CRSFReceiver) (ok : bool) :
  read_frame self = Some (ok, self') ->
  frame_count self <= frame_count self' /\
  error_count self <= error_count self' /\
  frame_count self' + error_count self' <=
    frame_count self + error_count self + 1.
Proof.
  unfold read_frame.
  destruct (serial self) as [s|] eqn:Hs; [|intros [= _ <-]; lia].
  destruct (is_open s) eqn:Ho; cbn [negb]; [|intros [= _ <-]; lia].
  rewrite (receive_eq self s Hs Ho).
  destruct (sync_loop _) as [b | frame rest].
  - intros [= _ <-]. cbn. lia.
  - destruct (_parse_frame _ _) as [p|] eqn:Hp; cbn [bind];
      [|discriminate].
    intros [= _ <-]. apply _parse_frame_counts in Hp. exact Hp.
Qed.

Lemma step_counts (e : event) (self self' : CRSFReceiver) :
  step e self = Some self' ->
  frame_count self <= frame_count self' /\
  error_count self <= error_count self' /\
  frame_count self' + error_count self' <=
    frame_count self + error_count self + count_reads [e].
Proof.
  destruct e as [| |data|]; cbn [step count_reads].
  - intros [= <-]. cbn. lia.
  - intros [= <-]. unfold close.
    destruct (serial self) as [s|]; [destruct (is_open s)|]; cbn; lia.
  - intros [= <-]. unfold arrive.
    destruct (serial self) as [s|]; [destruct (is_open s)|]; cbn; lia.
  - destruct (read_frame self) as [[ok p]|] eqn:Hr; cbn [bind snd];
      [|discriminate].
    intros [= <-]. apply read_frame_counts in Hr. lia.
Qed.

(** X12.  Over any history of a receiver neither counter ever goes
    down, and together they go up by at most one per [read_frame]
    call. *)
Theorem counters_grow_slowly (es : list event) :
  forall self self',
    run es self = Some self' ->
    frame_count self <= frame_count self' /\
    error_count self <= error_count self' /\
    frame_count self' + error_count self' <=
      frame_count self + error_count self + count_reads es.
Proof.
  induction es as [|e es IH]; intros self self'.
  - intros [= <-]. cbn. lia.
  - cbn [run]. destruct (step e self) as [p|] eqn:Hs; cbn [bind];
      [|discriminate].
    intros Hr. apply IH in Hr. apply step_counts in Hs.
    assert (Hc : count_reads (e :: es) = count_reads [e] + count_reads es)
      by (destruct e; cbn [count_reads]; lia).
    lia.
Qed.

Lemma counters_grow_slowly_witness :
  frame_count init <= frame_count (open init) /\
  error_count init <= error_count (open init) /\
  frame_count (open init) + error_count (open init) <=
    frame_count init + error_count init + count_reads [Open; ReadFrame].
Proof.
  apply (counters_grow_slowly [Open; ReadFrame] init (open init)).
  vm_compute. reflexivity.
Defined.

Lemma unpack_b_range (z : Z) :
  0 <= z <= 255 -> -128 <= unpack_b z <= 127.
Proof. intros H. unfold unpack_b. destruct (Z.ltb_spec z 128); lia. Qed.

Lemma _parse_frame_link_bytes frame self self' :
  _parse_frame frame self = Some self' ->
  link_bytes self -> link_bytes self'.
Proof.
  unfold _parse_frame.
  destruct (len frame <? 4); [now intros [= <-]|].
  destruct (negb _); [now intros [= <-]|].
  destruct (getitem frame 2 =? frame_type_value RC_CHANNELS_PACKED).
  - unfold _parse_rc_channels. destruct (_ <? _); [now intros [= <-]|].
    destruct (store_channels _ _ _ _); cbn [bind]; [|discriminate].
    now intros [= <-].
  - destruct (_ =? _); [|now intros [= <-]].
    unfold _parse_link_statistics.
    destruct (_ <? _); intros [= <-]; [trivial|]. intros _.
    unfold link_bytes. cbn.
    repeat split; try apply b2z_range; apply unpack_b_range, b2z_range.
Qed.

Lemma step_link_bytes e self self' :
  step e self = Some self' -> link_bytes self -> link_bytes self'.
Proof.
  destruct e as [| |data|]; cbn [step].
  - now intros [= <-].
  - intros [= <-]. unfold close.
    destruct (serial self) as [s|]; [destruct (is_open s)|]; trivial.
  - intros [= <-]. unfold arrive.
    destruct (serial self) as [s|]; [destruct (is_open s)|]; trivial.
  - unfold read_frame.
    destruct (serial self) as [s|] eqn:Hs; [|now intros [= <-]].
    destruct (is_open s) eqn:Ho; cbn [negb]; [|now intros [= <-]].
    rewrite (receive_eq self s Hs Ho).
    destruct (sync_loop _) as [b | frame rest]; [now intros [= <-]|].
    destruct (_parse_frame _ _) as [p|] eqn:Hp; cbn [bind snd];
      [|discriminate].
    intros [= <-] Hl. now apply (_parse_frame_link_bytes _ _ _ Hp).
Qed.

Lemma run_link_bytes es :
  forall self self',
    run es self = Some self' -> link_bytes self -> link_bytes self'.
Proof.
  induction es as [|e es IH]; intros self self'; [now intros [= <-]|].
  cbn [run]. destruct (step e self) as [p|] eqn:Hs; cbn [bind];
    [|discriminate].
  intros Hr Hl. apply (IH p self' Hr). now apply (step_link_bytes e self).
Qed.

(** X13.  Whatever happens to a receiver after its construction,
    [rssi_1], [rssi_2], [link_quality], [active_antenna], [rf_mode] and
    [tx_power] lie in [0, 255] and [snr] lies in [-128, 127]. *)
Theorem link_statistics_are_bytes (es : list event) :
  exists self,
    run es init = Some self /\
    0 <= rssi_1 self <= 255 /\ 0 <= rssi_2 self <= 255 /\
    0 <= link_quality self <= 255 /\ -128 <= snr self <= 127 /\
    0 <= active_antenna self <= 255 /\ 0 <= rf_mode self <= 255 /\
    0 <= tx_power self <= 255.
Proof.
  destruct (run_well_formed es init init_well_formed) as (self & Hr & _).
  exists self. split; [exact Hr|].
  apply (run_link_bytes es init self Hr).
  unfold link_bytes. cbn. lia.
Qed.

(** ** Deliveries *)

Lemma set_serial_same (self : CRSFReceiver) :
  set_serial (serial self) self = self.
Proof. now destruct self. Qed.

(** On an idle receiver with an empty buffer, a built frame that arrives
    in one piece is parsed, and the polling loop ends behind it. *)
Lemma feed_built (self : CRSFReceiver) (addr : CRSFAddress)
  (ty : CRSFFrameType) (payload : list byte) :
  serial self = idle -> buffer self = [] -> len payload <= 62 ->
  feed (make_frame addr ty payload) self =
  _parse_frame (make_frame addr ty payload) self.
Proof.
  intros Hs Hb Hp.
  pose proof (feed_drains (make_frame addr ty payload) self [] Hs) as Hd.
  rewrite Hb in Hd. cbn [app] in Hd.
  rewrite <- Hs, set_serial_same in Hd.
  pose proof (sync_loop_built [] [] addr ty payload (Forall_nil _) Hp)
    as Hx.
  cbn [app] in Hx. rewrite app_nil_r in Hx.
  assert (Hself : set_buffer [] self = self)
    by (rewrite <- Hb; apply set_buffer_same).
  eapply drains_deterministic; [exact Hd|].
  destruct (_parse_frame (make_frame addr ty payload) self) as [p|] eqn:E.
  - apply (drains_frame _ _ [] self p _ Hx); [now rewrite Hself|].
    pose proof (_parse_frame_keeps _ _ _ E) as [_ Hpb]. rewrite Hb in Hpb.
    rewrite <- (set_buffer_same p) at 2. rewrite Hpb.
    now apply drains_stop.
  - apply (drains_raise _ _ [] self Hx). now rewrite Hself.
Qed.

(** The beginning of a built frame is kept by the loop as it is. *)
Lemma sync_loop_prefix (p q : list byte) (addr : CRSFAddress)
  (ty : CRSFFrameType) (payload : list byte) :
  p ++ q = make_frame addr ty payload -> q <> [] -> len payload <= 62 ->
  sync_loop p = NeedMore p.
Proof.
  intros Hpq Hq Hp.
  pose proof (len_make_frame addr ty payload) as Hlen.
  rewrite <- Hpq, len_app in Hlen.
  assert (Hq1 : 1 <= len q) by (destruct q; [congruence | unfold len; cbn; lia]).
  pose proof (len_nonneg payload) as Hp0.
  rewrite sync_loop_eq.
  destruct (len p <? 4) eqn:E4; [reflexivity|].
  apply Z.ltb_ge in E4.
  assert (Hl : (4 <= length p)%nat) by (unfold len in E4; lia).
  assert (H0 : getitem p 0 = b2z (z2b (address_value addr))).
  { rewrite <- (getitem_app p q 0), Hpq, make_frame_shape by lia.
    reflexivity. }
  assert (H1 : getitem p 1 = len payload + 2).
  { rewrite <- (getitem_app p q 1), Hpq, make_frame_shape by lia.
    unfold getitem. cbn [app nth]. apply b2z_z2b. lia. }
  rewrite H0, H1, address_value_is_address. cbn [negb].
  replace (len payload + 2 >? CRSF_MAX_PACKET_SIZE) with false
    by (unfold CRSF_MAX_PACKET_SIZE; cmp_by_lia).
  now replace (len p <? len payload + 2 + 2) with true by cmp_by_lia.
Qed.

(** X14.  A frame that reaches an idle receiver with an empty buffer
    in two deliveries, cut at any place, is kept in the buffer and
    neither decoded nor counted after the first delivery, and after the
    second one the receiver is as if the frame had been parsed in one
    piece. *)
Theorem split_frame_delivery (self : CRSFReceiver) (p q : list byte)
  (addr : CRSFAddress) (ty : CRSFFrameType) (payload : list byte) :
  serial self = idle -> buffer self = [] ->
  p ++ q = make_frame addr ty payload -> q <> [] -> len payload <= 62 ->
  feed p self = Some (set_buffer p self) /\
  feed q (set_buffer p self) =
    _parse_frame (make_frame addr ty payload) self.
Proof.
  intros Hs Hb Hpq Hq Hp.
  assert (H1 : feed p self = Some (set_buffer p self)).
  { pose proof (feed_drains p self [] Hs) as Hd.
    rewrite Hb in Hd. cbn [app] in Hd.
    rewrite <- Hs, set_serial_same in Hd.
    eapply drains_deterministic; [exact Hd|].
    apply drains_stop.
    exact (sync_loop_prefix p q addr ty payload Hpq Hq Hp). }
  split; [exact H1|].
  pose proof (feed_app p q self) as Happ.
  rewrite H1 in Happ. cbn [bind] in Happ.
  rewrite Happ, Hpq. now apply feed_built.
Qed.

Lemma split_frame_delivery_witness :
  feed [xc8; x03] (open init) = Some (set_buffer [xc8; x03] (open init)) /\
  feed [x32; x05; x38] (set_buffer [xc8; x03] (open init)) =
    _parse_frame (make_frame USB COMMAND [x05]) (open init).
Proof.
  apply (split_frame_delivery (open init) [xc8; x03] [x32; x05; x38] USB
           COMMAND [x05] eq_refl eq_refl).
  - vm_compute. reflexivity.
  - discriminate.
  - vm_compute. discriminate.
Defined.

Lemma parse_built_twice (self : CRSFReceiver) (addr : CRSFAddress)
  (ty : CRSFFrameType) (payload : list byte) :
  length (channels self) = 16%nat ->
  exists s1 s2,
    _parse_frame (make_frame addr ty payload) self = Some s1 /\
    _parse_frame (make_frame addr ty payload) s1 = Some s2 /\
    frame_count s1 = frame_count self + 1 /\
    frame_count s2 = frame_count self + 2 /\
    error_count s2 = error_count self /\
    channels s2 = channels s1 /\
    (rssi_1 s2, rssi_2 s2, link_quality s2, snr s2) =
      (rssi_1 s1, rssi_2 s1, link_quality s1, snr s1) /\
    (active_antenna s2, rf_mode s2, tx_power s2) =
      (active_antenna s1, rf_mode s1, tx_power s1).
Proof.
  intros Hc.
  assert (Hplain : forall x : CRSFReceiver,
    exists s1 s2,
      Some (set_frame_count (frame_count x + 1) x) = Some s1 /\
      Some (set_frame_count (frame_count s1 + 1) s1) = Some s2 /\
      frame_count s1 = frame_count x + 1 /\
      frame_count s2 = frame_count x + 2 /\
      error_count s2 = error_count x /\
      channels s2 = channels s1 /\
      (rssi_1 s2, rssi_2 s2, link_quality s2, snr s2) =
        (rssi_1 s1, rssi_2 s1, link_quality s1, snr s1) /\
      (active_antenna s2, rf_mode s2, tx_power s2) =
        (active_antenna s1, rf_mode s1, tx_power s1)).
  { intros x. do 2 eexists. do 2 (split; [reflexivity|]).
    cbn. repeat split; lia. }
  setoid_rewrite parse_frame_built. cbn zeta.
  destruct ty; try apply Hplain.
  - unfold _parse_link_statistics.
    destruct (len payload <? 10); [apply Hplain|].
    do 2 eexists. do 2 (split; [reflexivity|]).
    cbn. repeat split; lia.
  - destruct (Z.ltb_spec (len payload) 22) as [Hs | Hl].
    + unfold _parse_rc_channels.
      replace (len payload <? 22) with true by cmp_by_lia. apply Hplain.
    + rewrite _parse_rc_channels_stores by assumption.
      eexists. eexists. split; [reflexivity|].
      rewrite _parse_rc_channels_stores
        by (trivial; cbn [channels set_channels set_frame_count];
            now rewrite length_map, length_seq).
      split; [reflexivity|]. cbn. repeat split; lia.
Qed.

(** X15.  The same valid frame delivered twice in a row to an idle
    receiver with an empty buffer is counted twice in [frame_count] and
    never in [error_count], and the second copy leaves the channel
    values and link statistics as the first copy set them. *)
Theorem repeated_frame (self : CRSFReceiver) (addr : CRSFAddress)
  (ty : CRSFFrameType) (payload : list byte) :
  serial self = idle -> buffer self = [] -> len payload <= 62 ->
  length (channels self) = 16%nat ->
  exists s1 s2,
    feed (make_frame addr ty payload) self = Some s1 /\
    feed (make_frame addr ty payload ++ make_frame addr ty payload) self =
      Some s2 /\
    frame_count s1 = frame_count self + 1 /\
    frame_count s2 = frame_count self + 2 /\
    error_count s2 = error_count self /\
    channels s2 = channels s1 /\
    (rssi_1 s2, rssi_2 s2, link_quality s2, snr s2) =
      (rssi_1 s1, rssi_2 s1, link_quality s1, snr s1) /\
    (active_antenna s2, rf_mode s2, tx_power s2) =
      (active_antenna s1, rf_mode s1, tx_power s1).
Proof.
  intros Hs Hb Hp Hc.
  destruct (parse_built_twice self addr ty payload Hc)
    as (s1 & s2 & H1 & H2 & Hrest).
  exists s1, s2.
  pose proof (_parse_frame_keeps _ _ _ H1) as [Hs1 Hb1].
  split; [now rewrite feed_built|].
  split; [|exact Hrest].
  rewrite <- feed_app, feed_built, H1 by assumption. cbn [bind].
  rewrite feed_built; [exact H2 | congruence | congruence | exact Hp].
Qed.

Lemma repeated_frame_witness :
  exists s1 s2,
    feed (make_frame USB COMMAND [x05]) (open init) = Some s1 /\
    feed (make_frame USB COMMAND [x05] ++ make_frame USB COMMAND [x05])
      (open init) = Some s2 /\
    frame_count s2 = 2.
Proof.
  destruct (repeated_frame (open init) USB COMMAND [x05] eq_refl eq_refl)
    as (s1 & s2 & H1 & H2 & _ & Hf & _).
  - vm_compute. discriminate.
  - reflexivity.
  - exists s1, s2. repeat split; assumption.
Defined.

(** ** The query functions on channel values *)

Lemma map_opt_total {A B : Type} (P : A -> Prop) (f : A -> option B)
  (g : A -> B) (l : list A) :
  (forall a, P a -> f a = Some (g a)) ->
  Forall P l -> map_opt f l = Some (map g l).
Proof.
  intros Hf. induction 1 as [|a t Ha _ IH]; [reflexivity|].
  cbn [map_opt map]. now rewrite (Hf a Ha), IH.
Qed.

(** All 2048 channel values, one by one. *)
Lemma channel_range_cases (P : Z -> bool) :
  forallb (fun n => P (Z.of_nat n)) (seq 0 2048) = true ->
  forall ch, channel_range ch -> P ch = true.
Proof.
  intros H ch Hc. unfold channel_range in Hc.
  rewrite forallb_forall in H.
  specialize (H (Z.to_nat ch) ltac:(apply in_seq; lia)).
  now rewrite Z2Nat.id in H by lia.
Qed.

Lemma channel_microseconds_value (ch : Z) :
  channel_range ch ->
  channel_microseconds ch = Some (1000 + (ch - 172) * 1000 / 1639) /\
  895 <= 1000 + (ch - 172) * 1000 / 1639 <= 2143.
Proof.
  intros Hc.
  pose proof (channel_range_cases
    (fun c => match channel_microseconds c with
              | Some u => (u =? 1000 + (c - 172) * 1000 / 1639)
                          && (895 <=? u) && (u <=? 2143)
              | None => false
              end) ltac:(vm_compute; reflexivity) ch Hc) as H.
  cbv beta in H.
  destruct (channel_microseconds ch) as [u|]; [|discriminate].
  apply andb_prop in H. destruct H as [H H3].
  apply andb_prop in H. destruct H as [H1 H2].
  apply Z.eqb_eq in H1. apply Z.leb_le in H2, H3. subst u.
  split; [reflexivity | lia].
Qed.

Lemma channel_normalized_value (ch : Z) :
  channel_range ch ->
  exists x, channel_normalized ch = Some x /\ in_norm_range x = true.
Proof.
  intros Hc.
  pose proof (channel_range_cases
    (fun c => match channel_normalized c with
              | Some x => in_norm_range x
              | None => false
              end) ltac:(vm_compute; reflexivity) ch Hc) as H.
  cbv beta in H.
  destruct (channel_normalized ch) as [x|]; [|discriminate].
  now exists x.
Qed.

Lemma map_opt_Forall {A B : Type} (f : A -> option B) (P : A -> Prop)
  (Q : B -> Prop) (l : list A) :
  (forall a, P a -> exists b, f a = Some b /\ Q b) ->
  Forall P l ->
  exists r, map_opt f l = Some r /\ Forall Q r /\ length r = length l.
Proof.
  intros Hf. induction 1 as [|a t Ha _ IH].
  - exists []. repeat split. constructor.
  - destruct (Hf a Ha) as (b & Hb & Qb).
    destruct IH as (r & Hr & Qr & Hl).
    exists (b :: r). cbn [map_opt]. rewrite Hb, Hr. cbn [bind length].
    repeat split; [now constructor | now rewrite Hl].
Qed.

(** X16.  For a receiver whose channel values lie in [0, 2047],
    [get_channels_microseconds] raises nothing and gives, for each
    channel value [ch], 1000 plus the floor of [(ch - 172) * 1000 / 1639]:
    the float division and the cut to an integer lose nothing else.  The
    results lie in [895, 2143], with 1000 for 172, 1500 for 992 and 2000
    for 1811. *)
Theorem get_channels_microseconds_value (self : CRSFReceiver) :
  Forall (fun ch => 0 <= ch <= 2047) (channels self) ->
  get_channels_microseconds self =
    Some (map (fun ch => 1000 + (ch - 172) * 1000 / 1639) (channels self))
  /\
  Forall (fun ch => 895 <= 1000 + (ch - 172) * 1000 / 1639 <= 2143)
    (channels self) /\
  map channel_microseconds [172; 992; 1811] =
    [Some 1000; Some 1500; Some 2000].
Proof.
  intros Hc. split; [|split].
  - apply (map_opt_total channel_range); [|exact Hc].
    intros ch Hch. now apply channel_microseconds_value.
  - apply Forall_forall. intros ch Hin.
    rewrite Forall_forall in Hc. now apply channel_microseconds_value, Hc.
  - vm_compute. reflexivity.
Qed.

Lemma get_channels_microseconds_value_witness :
  get_channels_microseconds (set_channels [0; 172; 992; 1811; 2047] init) =
  Some [895; 1000; 1500; 2000; 2143].
Proof.
  refine (proj1 (get_channels_microseconds_value
                   (set_channels [0; 172; 992; 1811; 2047] init) _)).
  repeat constructor; lia.
Defined.

(** X17.  For a receiver whose channel values lie in [0, 2047],
    [get_channels_normalized] raises nothing and gives one float per
    channel, each between -1.5 and 1.5; 992 gives 0.0 and 1811 gives 1.0
    exactly. *)
Theorem get_channels_normalized_range (self : CRSFReceiver) :
  Forall (fun ch => 0 <= ch <= 2047) (channels self) ->
  (exists ns,
     get_channels_normalized self = Some ns /\
     Forall (fun x => in_norm_range x = true) ns /\
     length ns = length (channels self)) /\
  map channel_normalized [992; 1811] = [Some 0%float; Some 1%float].
Proof.
  intros Hc. split; [|vm_compute; reflexivity].
  apply (map_opt_Forall channel_normalized channel_range); [|exact Hc].
  intros ch Hch. now apply channel_normalized_value.
Qed.

Lemma get_channels_normalized_range_witness :
  exists ns,
    get_channels_normalized init = Some ns /\
    Forall (fun x => in_norm_range x = true) ns /\
    length ns = length (channels init).
Proof.
  refine (proj1 (get_channels_normalized_range init _)).
  repeat constructor; cbn; lia || discriminate.
Defined.

(** X18.  The value check of [test_channel_values]
    ([valid_raw and valid_norm and valid_us]) holds of every receiver,
    whatever has happened to it since its construction, and computing it
    raises nothing. *)
Theorem channel_values_always_valid (es : list event) :
  exists self,
    run es init = Some self /\ channel_values_valid self = Some true.
Proof.
  destruct (run_well_formed es init init_well_formed)
    as (self & Hr & _ & Hc & _).
  exists self. split; [exact Hr|].
  unfold channel_values_valid.
  destruct (map_opt_Forall channel_normalized channel_range
              (fun x => in_norm_range x = true) (channels self)
              channel_normalized_value Hc) as (ns & Hns & Hn & _).
  unfold get_channels_normalized, get_channels_microseconds.
  rewrite Hns.
  rewrite (map_opt_total channel_range channel_microseconds
             (fun ch => 1000 + (ch - 172) * 1000 / 1639) (channels self)
             (fun ch H => proj1 (channel_microseconds_value ch H)) Hc).
  cbn [bind]. f_equal.
  assert (H1 : valid_raw (get_channels self) = true).
  { apply forallb_forall. intros ch Hin.
    rewrite Forall_forall in Hc. specialize (Hc ch Hin).
    unfold channel_range in Hc.
    apply andb_true_intro. split; apply Z.leb_le; lia. }
  assert (H2 : valid_norm ns = true).
  { apply forallb_forall. intros x Hin.
    rewrite Forall_forall in Hn. now apply Hn. }
  assert (H3 : valid_us (map (fun ch => 1000 + (ch - 172) * 1000 / 1639)
                           (channels self)) = true).
  { apply forallb_forall. intros u Hin. apply in_map_iff in Hin.
    destruct Hin as (ch & <- & Hin).
    rewrite Forall_forall in Hc. specialize (Hc ch Hin).
    pose proof (proj2 (channel_microseconds_value ch Hc)).
    apply andb_true_intro. split; apply Z.leb_le; lia. }
  now rewrite H1, H2, H3.
Qed.

(** X19.  On every receiver that a history leads to, the check of
    [test_link_statistics] ([-120 <= rssi_1 <= 0] and
    [0 <= link_quality <= 100]) holds exactly when [rssi_1] is 0 and
    [link_quality] is at most 100: [rssi_1] is stored as an unsigned
    byte, so any other value of it fails the check. *)
Theorem link_statistics_valid_iff (es : list event)
  (self : CRSFReceiver) :
  run es init = Some self ->
  (link_statistics_valid self = true <->
   rssi_1 self = 0 /\ link_quality self <= 100).
Proof.
  intros Hr.
  assert (Hl : link_bytes self).
  { apply (run_link_bytes es init self Hr). unfold link_bytes. cbn. lia. }
  destruct Hl as (H1 & _ & H3 & _).
  unfold link_statistics_valid. cbv zeta.
  rewrite !andb_true_iff, !Z.leb_le. lia.
Qed.

Lemma link_statistics_valid_iff_witness :
  link_statistics_valid init = true <->
  rssi_1 init = 0 /\ link_quality init <= 100.
Proof.
  apply (link_statistics_valid_iff [] init). reflexivity.
Defined.
